(** * IAM authorization server: a shallow embedding of the decision-plane runtime

    The Go packages embedded here are
    - [crypto/sha256] and [encoding/hex] as used by [load.Notification.Sign],
    - package [load]: change notifications and their notifier, the Redis
      event handler, the reload queue and the reload ticker,
    - package [auth]: the cache authentication strategy and [KeyExpired],
    - package [server]: the POSIX signal handler and [RequestShutdown],
    - package [analytics]: the audit pipeline and the expiry of its records,
    - package [authorization]: the authorizer in front of the ladon warden,
      and the handler that calls it.

    Go strings are byte sequences, which is what [string] (a list of
    [ascii]) is; uint32/uint64 values are [Z] with the wrap-around written
    out; goroutines and channels are explicit state with one transition per
    statement that another goroutine can observe. *)

From Stdlib Require Import ZArith List String Ascii Bool Lia.
From stdpp Require Import base option list strings gmap.
Import ListNotations.

Local Open Scope string_scope.
Local Open Scope list_scope.
Local Open Scope Z_scope.

(** ** crypto/sha256 (sha256.go, sha256block.go) and encoding/hex *)

Module SHA256.

(** uint32 arithmetic. *)
Definition u32 (z : Z) : Z := z mod 2 ^ 32.
Definition u64 (z : Z) : Z := z mod 2 ^ 64.

(** [bits.RotateLeft32(x, -n)] *)
Definition rotr (x n : Z) : Z :=
  Z.lor (Z.shiftr x n) (u32 (Z.shiftl x (32 - n))).

(** [^x] on a uint32 *)
Definition not32 (x : Z) : Z := Z.lxor x 0xffffffff.

(** The round constants, [_K[8*i .. 8*i+7]] per row. *)
Definition _K : list Z :=
  [ 0x428a2f98; 0x71374491; 0xb5c0fbcf; 0xe9b5dba5;
    0x3956c25b; 0x59f111f1; 0x923f82a4; 0xab1c5ed5 ]
  ++
  [ 0xd807aa98; 0x12835b01; 0x243185be; 0x550c7dc3;
    0x72be5d74; 0x80deb1fe; 0x9bdc06a7; 0xc19bf174 ]
  ++
  [ 0xe49b69c1; 0xefbe4786; 0x0fc19dc6; 0x240ca1cc;
    0x2de92c6f; 0x4a7484aa; 0x5cb0a9dc; 0x76f988da ]
  ++
  [ 0x983e5152; 0xa831c66d; 0xb00327c8; 0xbf597fc7;
    0xc6e00bf3; 0xd5a79147; 0x06ca6351; 0x14292967 ]
  ++
  [ 0x27b70a85; 0x2e1b2138; 0x4d2c6dfc; 0x53380d13;
    0x650a7354; 0x766a0abb; 0x81c2c92e; 0x92722c85 ]
  ++
  [ 0xa2bfe8a1; 0xa81a664b; 0xc24b8b70; 0xc76c51a3;
    0xd192e819; 0xd6990624; 0xf40e3585; 0x106aa070 ]
  ++
  [ 0x19a4c116; 0x1e376c08; 0x2748774c; 0x34b0bcb5;
    0x391c0cb3; 0x4ed8aa4a; 0x5b9cca4f; 0x682e6ff3 ]
  ++
  [ 0x748f82ee; 0x78a5636f; 0x84c87814; 0x8cc70208;
    0x90befffa; 0xa4506ceb; 0xbef9a3f7; 0xc67178f2 ].

(** The eight working variables / chaining values [h0..h7]. *)
Record digest := Digest {
  h0 : Z; h1 : Z; h2 : Z; h3 : Z; h4 : Z; h5 : Z; h6 : Z; h7 : Z }.

Definition init : digest :=
  Digest 0x6a09e667 0xbb67ae85 0x3c6ef372 0xa54ff53a
         0x510e527f 0x9b05688c 0x1f83d9ab 0x5be0cd19.

(** [w[i] = uint32(p[j])<<24 | uint32(p[j+1])<<16 | uint32(p[j+2])<<8 | uint32(p[j+3])] *)
Definition be32 (b0 b1 b2 b3 : Z) : Z :=
  Z.lor (Z.lor (Z.lor (Z.shiftl b0 24) (Z.shiftl b1 16)) (Z.shiftl b2 8)) b3.

Fixpoint load_words (p : list Z) : list Z :=
  match p with
  | b0 :: b1 :: b2 :: b3 :: rest => be32 b0 b1 b2 b3 :: load_words rest
  | _ => []
  end.

(** One step of the message schedule; [rw] holds [w[i-1], w[i-2], ...]. *)
Definition sched_next (rw : list Z) : Z :=
  let v1 := nth 1 rw 0 in
  let t1 := Z.lxor (Z.lxor (rotr v1 17) (rotr v1 19)) (Z.shiftr v1 10) in
  let v2 := nth 14 rw 0 in
  let t2 := Z.lxor (Z.lxor (rotr v2 7) (rotr v2 18)) (Z.shiftr v2 3) in
  u32 (t1 + nth 6 rw 0 + t2 + nth 15 rw 0).

Fixpoint extend (n : nat) (rw : list Z) : list Z :=
  match n with
  | O => rw
  | S k => extend k (sched_next rw :: rw)
  end.

Definition schedule (chunk : list Z) : list Z :=
  rev (extend 48 (rev (load_words chunk))).

Definition round (v : digest) (kw : Z * Z) : digest :=
  let '(Digest a b c d e f g h) := v in
  let t1 := u32 (h + Z.lxor (Z.lxor (rotr e 6) (rotr e 11)) (rotr e 25)
                   + Z.lxor (Z.land e f) (Z.land (not32 e) g)
                   + fst kw + snd kw) in
  let t2 := u32 (Z.lxor (Z.lxor (rotr a 2) (rotr a 13)) (rotr a 22)
                 + Z.lxor (Z.lxor (Z.land a b) (Z.land a c)) (Z.land b c)) in
  Digest (u32 (t1 + t2)) a b c (u32 (d + t1)) e f g.

Definition block (dig : digest) (chunk : list Z) : digest :=
  let v := fold_left round (combine _K (schedule chunk)) dig in
  Digest (u32 (h0 dig + h0 v)) (u32 (h1 dig + h1 v))
         (u32 (h2 dig + h2 v)) (u32 (h3 dig + h3 v))
         (u32 (h4 dig + h4 v)) (u32 (h5 dig + h5 v))
         (u32 (h6 dig + h6 v)) (u32 (h7 dig + h7 v)).

(** [for len(p) >= chunk { ...; p = p[chunk:] }], [n] chunks to go. *)
Fixpoint blockGeneric (n : nat) (dig : digest) (p : list Z) : digest :=
  match n with
  | O => dig
  | S k => blockGeneric k (block dig (firstn 64 p)) (skipn 64 p)
  end.

Definition putUint32 (x : Z) : list Z :=
  [ Z.land (Z.shiftr x 24) 0xff; Z.land (Z.shiftr x 16) 0xff;
    Z.land (Z.shiftr x 8) 0xff; Z.land x 0xff ].

Definition putUint64 (x : Z) : list Z :=
  putUint32 (Z.shiftr x 32) ++ putUint32 (Z.land x 0xffffffff).

(** [checkSum]: 0x80, zeroes up to 56 mod 64, then the length in bits. *)
Definition padding (len : Z) : list Z :=
  let t := if len mod 64 <? 56 then 56 - len mod 64 else 64 + 56 - len mod 64 in
  0x80 :: repeat 0 (Z.to_nat (t - 1)) ++ putUint64 (u64 (Z.shiftl len 3)).

Definition Sum256 (data : list Z) : list Z :=
  let p := data ++ padding (Z.of_nat (List.length data)) in
  let d := blockGeneric (List.length p / 64)%nat init p in
  putUint32 (h0 d) ++ putUint32 (h1 d) ++ putUint32 (h2 d) ++ putUint32 (h3 d) ++
  putUint32 (h4 d) ++ putUint32 (h5 d) ++ putUint32 (h6 d) ++ putUint32 (h7 d).

End SHA256.

(** [[]byte(s)] *)
Definition bytes_of_string (s : string) : list Z :=
  map (fun c => Z.of_N (N_of_ascii c)) (list_ascii_of_string s).

Module Hex.

Definition hextable : string := "0123456789abcdef".

Definition digit (v : Z) : ascii :=
  match String.get (Z.to_nat v) hextable with
  | Some c => c
  | None => "0"%char
  end.

(** [dst[j] = hextable[v>>4]; dst[j+1] = hextable[v&0x0f]] *)
Fixpoint EncodeToString (src : list Z) : string :=
  match src with
  | [] => EmptyString
  | v :: rest =>
      String (digit (Z.shiftr v 4)) (String (digit (Z.land v 0x0f)) (EncodeToString rest))
  end.

(** Whether [c] is one of the sixteen characters of [hextable]. *)
Definition is_hex_digit (c : ascii) : bool :=
  existsb (Ascii.eqb c) (list_ascii_of_string hextable).

End Hex.

(** ** Package load: notifications (notification.go) *)

Module Load.

(** [type NotificationCommand string] *)
Definition NotificationCommand := string.

Definition RedisPubSubChannel : string := "iam.cluster.notifications".
Definition NoticePolicyChanged : NotificationCommand := "PolicyChanged".
Definition NoticeSecretChanged : NotificationCommand := "SecretChanged".

(** [crypto.Hash]: the zero value and the identifiers the code can meet. *)
Inductive crypto_Hash := HashUnset | HashSHA256 | HashOther (id : Z).

Record Notification := MkNotification {
  Command : NotificationCommand;
  Payload : string;
  Signature : string;
  SignatureAlgo : crypto_Hash }.

(** [func (n *Notification) Sign()] *)
Definition Sign (n : Notification) : Notification :=
  let hash := SHA256.Sum256 (bytes_of_string (String.append (Command n) (Payload n))) in
  {| Command := Command n;
     Payload := Payload n;
     Signature := Hex.EncodeToString hash;
     SignatureAlgo := HashSHA256 |}.

(** What a verified notification would have to satisfy: its signature is
    the one [Sign] computes from its command and payload.  The source has
    no function that checks this. *)
Definition signature_matches (n : Notification) : bool :=
  String.eqb (Signature n) (Signature (Sign n)).

(** *** Package-level state (load.go)

    A [func()] value is either [nil] or a closure; closures are opaque, so
    a closure is named by an identifier and calling it is recorded in the
    trace. *)
Definition func := option nat.

Inductive level := Debug | Info | Warn | Error.

Inductive effect :=
| StoreReload                         (* l.store.Reload() was called *)
| Call (id : nat)                     (* a non-nil callback was run *)
| Handled (c : NotificationCommand)   (* handled(notif.Command) *)
| Log (lv : level) (msg : string).

Section Loader.

(** [type Store interface { Reload() error }] *)
Variable store : Type.
Variable store_Reload : store -> option string * store.

Record State := MkState {
  reloadQueue : list func;   (* values sent on the channel, not yet received *)
  requeue : list func;       (* guarded by requeueLock *)
  l_store : store;
  trace : list effect;
  panicked : bool }.         (* a nil function value was called *)

Definition emit (e : list effect) (st : State) : State :=
  {| reloadQueue := reloadQueue st; requeue := requeue st;
     l_store := l_store st; trace := trace st ++ e; panicked := panicked st |}.

(** [f()] for a function value [f]. *)
Definition call (f : func) (st : State) : State :=
  match f with
  | Some id => emit [Call id] st
  | None => {| reloadQueue := reloadQueue st; requeue := requeue st;
               l_store := l_store st; trace := trace st; panicked := true |}
  end.

(** [if len(fs) != 0 { fs[0]() }] for a variadic parameter [fs]. *)
Definition call_first (fs : list func) (st : State) : State :=
  match fs with
  | f :: _ => call f st
  | [] => st
  end.

(** The value handed to the subscription callback: something that is
    not a redis message, or a message together with what
    [json.Unmarshal] makes of its payload ([None]: malformed). *)
Inductive redis_value :=
| NotAMessage
| Message (unmarshalled : option Notification).

(** [func handleRedisEvent(v interface{}, handled func(NotificationCommand), reloaded func())];
    [handled] is [true] when the argument is not nil. *)
Definition handleRedisEvent (v : redis_value) (handled : bool) (reloaded : func)
           (st : State) : State :=
  match v with
  | NotAMessage => st
  | Message None =>
      emit [Log Error "Unmarshalling message body failed, malformed: "] st
  | Message (Some notif) =>
      let st := emit [Log Info "receive redis message"] st in
      if String.eqb (Command notif) NoticePolicyChanged
         || String.eqb (Command notif) NoticeSecretChanged
      then
        let st := emit [Log Info "Reloading secrets and policies"] st in
        let st := {| reloadQueue := reloadQueue st ++ [reloaded];
                     requeue := requeue st; l_store := l_store st;
                     trace := trace st; panicked := panicked st |} in
        if handled then emit [Handled (Command notif)] st else st
      else
        emit [Log Warn "Unknown notification command: %q"] st
  end.

(** The callback [startPubSubLoop] registers: [handleRedisEvent(v, nil, nil)]. *)
Definition pubsub_handler (v : redis_value) (st : State) : State :=
  handleRedisEvent v false None st.

(** One iteration of [reloadQueueLoop]'s [case fn := <-reloadQueue]. *)
Definition reloadQueue_recv (cb : list func) (st : State) : State :=
  match reloadQueue st with
  | [] => st                           (* nothing to receive: the select waits *)
  | fn :: rest =>
      let st := {| reloadQueue := rest; requeue := requeue st ++ [fn];
                   l_store := l_store st; trace := trace st;
                   panicked := panicked st |} in
      let st := emit [Log Info "Reload queued"] st in
      call_first cb st
  end.

(** [func shouldReload() ([]func(), bool)] *)
Definition shouldReload (st : State) : (list func * bool) * State :=
  match requeue st with
  | [] => (([], false), st)
  | _ :: _ =>
      let n := requeue st in
      ((n, true), {| reloadQueue := reloadQueue st; requeue := [];
                     l_store := l_store st; trace := trace st;
                     panicked := panicked st |})
  end.

(** [func (l *Load) DoReload()] *)
Definition DoReload (st : State) : State :=
  let '(err, s) := store_Reload (l_store st) in
  let st := {| reloadQueue := reloadQueue st; requeue := requeue st;
               l_store := s; trace := trace st ++ [StoreReload];
               panicked := panicked st |} in
  let st := match err with
            | Some e => emit [Log Error ("faild to refresh target storage: " ++ e)%string] st
            | None => st
            end in
  emit [Log Debug "refresh target storage succ"] st.

(** [for _, c := range cb { if c != nil { c() } }] *)
Fixpoint run_callbacks (cb : list func) (st : State) : State :=
  match cb with
  | [] => st
  | None :: rest => run_callbacks rest st
  | Some id :: rest => run_callbacks rest (emit [Call id] st)
  end.

(** The body of [case <-ticker.C:] in [reloadLoop]. *)
Definition reloadLoop_tick (complete : list func) (st : State) : State :=
  let '((cb, ok), st) := shouldReload st in
  if negb ok then st
  else
    let st := DoReload st in
    let st := run_callbacks cb st in
    let st := call_first complete st in
    if panicked st then st
    else emit [Log Info "reload: cycle completed in %v"] st.

(** What the [select] of a loop iteration picks. *)
Inductive wakeup := CtxDone | Tick.

(** [func (l *Load) reloadLoop(complete ...func())], driven by the
    sequence of wake-ups; it returns at the first [CtxDone]. *)
Fixpoint reloadLoop (complete : list func) (ws : list wakeup) (st : State) : State :=
  match ws with
  | [] => st
  | CtxDone :: _ => st
  | Tick :: ws =>
      let st := reloadLoop_tick complete st in
      if panicked st then st else reloadLoop complete ws st
  end.

(** A burst of messages: each goes through the subscription callback
    and is picked up by [reloadQueueLoop]. *)
Definition receive_all (vs : list redis_value) (st : State) : State :=
  fold_left (fun st v => reloadQueue_recv [] (pubsub_handler v st)) vs st.

(** [func (l *Load) Start()]: the goroutines it starts ([startPubSubLoop],
    [reloadLoop], [reloadQueueLoop]) are driven by the events below; the
    call itself then reloads once, [l.DoReload()]. *)
Definition Start (st : State) : State := DoReload st.

(** What the goroutines of the loader do, one event at a time.  The
    channel [reloadQueue] is unbuffered, so a call of [handleRedisEvent]
    that sends on it completes together with the receive of
    [reloadQueueLoop], which [Start] runs without a callback. *)
Inductive event :=
| Arrives (v : redis_value) (handled : bool) (reloaded : func)
| Ticks.                               (* [case <-ticker.C:] of [reloadLoop] *)

(** Nothing runs once a nil function value has been called. *)
Definition loader_step (complete : list func) (e : event) (st : State) : State :=
  if panicked st then st
  else match e with
       | Arrives v handled reloaded =>
           reloadQueue_recv [] (handleRedisEvent v handled reloaded st)
       | Ticks => reloadLoop_tick complete st
       end.

Definition loader_run (complete : list func) (es : list event) (st : State) : State :=
  fold_left (fun st e => loader_step complete e st) es st.

End Loader.

Arguments reloadQueue {store}.
Arguments requeue {store}.
Arguments l_store {store}.
Arguments trace {store}.
Arguments panicked {store}.
Arguments emit {store}.
Arguments call {store}.
Arguments call_first {store}.
Arguments handleRedisEvent {store}.
Arguments pubsub_handler {store}.
Arguments reloadQueue_recv {store}.
Arguments shouldReload {store}.
Arguments DoReload {store}.
Arguments run_callbacks {store}.
Arguments reloadLoop_tick {store}.
Arguments reloadLoop {store}.
Arguments receive_all {store}.
Arguments Start {store}.
Arguments loader_step {store}.
Arguments loader_run {store}.

Definition is_log (e : effect) : bool :=
  match e with Log _ _ => true | _ => false end.

(** A trace without its log lines. *)
Definition actions (tr : list effect) : list effect :=
  List.filter (fun e => negb (is_log e)) tr.

(** How often the store was reloaded. *)
Definition reloads (tr : list effect) : nat :=
  List.length (List.filter (fun e => match e with StoreReload => true | _ => false end) tr).

(** The non-nil callbacks of a pending list, in order. *)
Definition non_nil (cb : list func) : list nat := omap id cb.

(** A notification whose command the listener knows. *)
Definition recognized (n : Notification) : bool :=
  String.eqb (Command n) NoticePolicyChanged
  || String.eqb (Command n) NoticeSecretChanged.

(** An event after which a reload is pending: a decoded notification
    with a command the listener knows. *)
Definition triggers (e : event) : bool :=
  match e with
  | Arrives (Message (Some n)) _ _ => recognized n
  | _ => false
  end.

Definition is_tick (e : event) : bool :=
  match e with Ticks => true | _ => false end.

(** How many events of a sequence satisfy [f]. *)
Definition count (f : event -> bool) (es : list event) : nat :=
  List.length (List.filter f es).

(** The pending list is empty and nothing is in transit on the channel:
    the state of the package variables when the process starts. *)
Definition quiet {store : Type} (st : State store) : Prop :=
  reloadQueue st = [] /\ requeue st = [].

(** *** The notifier (notification.go) *)

(** [storage.ErrRedisIsDown], or any other error of the cluster. *)
Inductive storage_error := ErrRedisIsDown | StorageError (msg : string).

Section Notifier.

(** [*storage.RedisCluster] with [Publish(channel, message string) error]. *)
Variable cluster : Type.
Variable Publish : cluster -> string -> string -> option storage_error * cluster.

(** The argument of [Notify] is an [interface{}]: a [Notification]
    value, or a value of any other type. *)
Variable other : Type.

Inductive any :=
| IsNotification (n : Notification)
| IsOther (v : other).

(** [json.Marshal]: the encoding, or the message of the error. *)
Variable json_Marshal : any -> string + string.

Record RedisNotifier := MkNotifier {
  store : cluster;
  channel : string }.

(** [func (r *RedisNotifier) Notify(notif interface{}) bool]; the third
    component is what was logged. *)
Definition Notify (r : RedisNotifier) (notif : any)
  : bool * RedisNotifier * list effect :=
  let notif := match notif with
               | IsNotification n => IsNotification (Sign n)
               | IsOther _ => notif
               end in
  match json_Marshal notif with
  | inl err =>
      (false, r, [Log Error ("Problem marshaling notification: " ++ err)%string])
  | inr toSend =>
      let '(err, cl) := Publish (store r) (channel r) toSend in
      let r := {| store := cl; channel := channel r |} in
      match err with
      | None => (true, r, [Log Debug "Sending notification: %v"])
      | Some ErrRedisIsDown => (false, r, [Log Debug "Sending notification: %v"])
      | Some (StorageError msg) =>
          (false, r, [Log Debug "Sending notification: %v";
                      Log Error ("Could not send notification: " ++ msg)%string])
      end
  end.

End Notifier.

Arguments IsNotification {other}.
Arguments IsOther {other}.
Arguments store {cluster}.
Arguments channel {cluster}.
Arguments Notify {cluster} Publish {other}.

End Load.

(** ** Package auth: the cache authentication strategy (cache.go) *)

Module Auth.

Record Secret := MkSecret {
  Username : string;
  ID : string;
  Key : string;
  Expires : Z (* int64 *) }.

(** A [time.Time] as the instant [t_sec] seconds and [t_nsec] nanoseconds
    after the Unix epoch. *)
Record Time := MkTime { t_sec : Z; t_nsec : Z }.

(** [time.Unix(sec, nsec)] for [0 <= nsec < 1e9], which is how the code
    calls it. *)
Definition time_Unix (sec nsec : Z) : Time := MkTime sec nsec.

(** [t.After(u)] *)
Definition After (t u : Time) : bool :=
  (t_sec u <? t_sec t) || ((t_sec t =? t_sec u) && (t_nsec u <? t_nsec t)).

(** [func KeyExpired(expires int64) bool]; [now] is what [time.Now()]
    returns. *)
Definition KeyExpired (now : Time) (expires : Z) : bool :=
  if 1 <=? expires then After now (time_Unix expires 0) else false.

(** Error codes of [internal/pkg/code] that the strategy writes. *)
Inductive code := ErrMissingHeader | ErrSignatureInvalid | ErrExpired.

(** Errors of the key function and of [jwt.ParseWithClaims]. *)
Inductive keyfunc_error :=
| UnexpectedSigningMethod
| ErrMissingKID
| ErrMissingSecret.

Inductive jwt_error :=
| Malformed                       (* ParseUnverified failed *)
| Unverifiable (e : keyfunc_error) (* the key function returned an error *)
| InvalidSignatureError           (* Method.Verify failed *)
| InvalidClaims.                  (* Claims.Valid failed (time, audience) *)

(** What the response carries: the code and what the message is built from. *)
Inductive message :=
| MsgHeaderEmpty                  (* "Authorization header cannot be empty." *)
| MsgJWT (e : jwt_error)          (* err.Error() *)
| MsgExpiredAt (expires : Z).     (* "expired at: %s" of time.Unix(expires, 0) *)

(** A decoded token, as [ParseUnverified] hands it to the key function. *)
Record Token := MkToken {
  method_is_HMAC : bool;          (* token.Method is a jwt.SigningMethodHMAC *)
  header_kid : option string;     (* token.Header["kid"].(string) *)
  verifies : string -> bool;      (* Method.Verify(signing string, signature, key) *)
  claims_valid : bool }.          (* Claims.Valid with the expected audience *)

(** The inbound request: the Authorization header and what
    [fmt.Sscanf(header, "Bearer %s", &rawJWT)] followed by the JWT decoder
    yields for it ([None]: not three base64url segments of JSON). *)
Record Request := MkRequest {
  Authorization : string;
  bearer : option Token }.

(** The part of [gin.Context] the strategy touches. *)
Record Context := MkContext {
  Keys : gmap string string;              (* c.Set / c.GetString *)
  written : option (code * message);      (* core.WriteResponse(c, err, nil) *)
  aborted : bool;                         (* c.Abort() *)
  next : bool }.                          (* c.Next() *)

Definition UsernameKey : string := "username".

Definition abort_with (c : Context) (e : code) (m : message) : Context :=
  {| Keys := Keys c; written := Some (e, m); aborted := true; next := next c |}.

Section CacheStrategy.

(** [type CacheStrategy struct { get func(kid string) (Secret, error) }] *)
Variable get : string -> option Secret.

(** The key function passed to [jwt.ParseWithClaims]; it also assigns
    the captured variable [secret]. *)
Definition keyFunc (token : Token) : keyfunc_error + Secret :=
  if negb (method_is_HMAC token) then inl UnexpectedSigningMethod
  else match header_kid token with
       | None => inl ErrMissingKID
       | Some kid =>
           match get kid with
           | None => inl ErrMissingSecret
           | Some secret => inr secret
           end
       end.

(** [jwt.ParseWithClaims(rawJWT, claims, keyFunc, jwt.WithAudience(AuthzAudience))]:
    decode, look the key up, verify the signature, validate the claims. *)
Definition ParseWithClaims (raw : option Token) : jwt_error + Secret :=
  match raw with
  | None => inl Malformed
  | Some token =>
      match keyFunc token with
      | inl e => inl (Unverifiable e)
      | inr secret =>
          if negb (verifies token (Key secret)) then inl InvalidSignatureError
          else if negb (claims_valid token) then inl InvalidClaims
          else inr secret
      end
  end.

(** The handler returned by [func (cache CacheStrategy) AuthFunc() gin.HandlerFunc]. *)
Definition AuthFunc (now : Time) (req : Request) (c : Context) : Context :=
  if (String.length (Authorization req) =? 0)%nat
  then abort_with c ErrMissingHeader MsgHeaderEmpty
  else
    match ParseWithClaims (bearer req) with
    | inl err => abort_with c ErrSignatureInvalid (MsgJWT err)
    | inr secret =>
        if KeyExpired now (Expires secret)
        then abort_with c ErrExpired (MsgExpiredAt (Expires secret))
        else {| Keys := <[UsernameKey := Username secret]> (Keys c);
                written := written c; aborted := aborted c; next := true |}
    end.

End CacheStrategy.

(** The error kinds the interface description names. *)
Inductive AuthError := MissingKeyID | MissingSecret | InvalidSignature | Expired.

(** Which of them a written error is: by its code, and for
    [ErrSignatureInvalid] by the error its message carries. *)
Definition kind_of (e : code * message) : option AuthError :=
  match e with
  | (ErrMissingHeader, _) => None
  | (ErrExpired, _) => Some Expired
  | (ErrSignatureInvalid, MsgJWT (Unverifiable ErrMissingKID)) => Some MissingKeyID
  | (ErrSignatureInvalid, MsgJWT (Unverifiable ErrMissingSecret)) => Some MissingSecret
  | (ErrSignatureInvalid, _) => Some InvalidSignature
  end.

End Auth.

(** ** Package server: the signal handler (signal.go) *)

Module Server.

(** [shutdownSignals = []os.Signal{os.Interrupt, syscall.SIGTERM}] *)
Inductive Signal := SIGINT | SIGTERM.

Definition shutdownSignals : list Signal := [SIGINT; SIGTERM].

Inductive process :=
| Running
| Panicked                 (* close of closed channel *)
| Killed (s : Signal)      (* default disposition, no handler installed *)
| Exited (code : Z).       (* os.Exit(code) *)

(** Where the goroutine started by [SetupSignalHandler] stands. *)
Inductive pc :=
| AwaitFirst    (* <-shutdownHandler *)
| CloseStop     (* close(stop) *)
| AwaitSecond   (* <-shutdownHandler *)
| CallExit      (* os.Exit(1) *)
| Gone.

Record State := MkState {
  proc : process;
  onlyOneSignalHandler : bool;             (* true once closed *)
  shutdownHandler : option (list Signal);  (* nil, or the buffer of make(chan os.Signal, 2) *)
  handler : option pc;                     (* the goroutine, once started *)
  stop_closes : nat;                       (* how often close(stop) ran *)
  received : nat;                          (* signals the goroutine took from the channel *)
  work : nat }.                            (* statements run by all other goroutines *)

Definition initial : State :=
  {| proc := Running; onlyOneSignalHandler := false; shutdownHandler := None;
     handler := None; stop_closes := 0; received := 0; work := 0 |}.

(** The returned channel [stop] is closed iff [stop_closes] is positive. *)
Definition stop_closed (st : State) : bool := (0 <? stop_closes st)%nat.

(** [func SetupSignalHandler() <-chan struct{}] *)
Definition SetupSignalHandler (st : State) : State :=
  if onlyOneSignalHandler st
  then {| proc := Panicked; onlyOneSignalHandler := true;
          shutdownHandler := shutdownHandler st; handler := handler st;
          stop_closes := stop_closes st; received := received st; work := work st |}
  else {| proc := proc st; onlyOneSignalHandler := true;
          shutdownHandler := Some []; handler := Some AwaitFirst;
          stop_closes := 0; received := received st; work := work st |}.

(** A send that does not block: [signal.Notify] delivery and the
    [select { case shutdownHandler <- sig: ...; default: }] of
    [RequestShutdown]. *)
Definition try_send (s : Signal) (ch : list Signal) : option (list Signal) :=
  if (List.length ch <? 2)%nat then Some (ch ++ [s]) else None.

Definition set_chan (st : State) (ch : list Signal) : State :=
  {| proc := proc st; onlyOneSignalHandler := onlyOneSignalHandler st;
     shutdownHandler := Some ch; handler := handler st;
     stop_closes := stop_closes st; received := received st; work := work st |}.

(** [func RequestShutdown() bool] *)
Definition RequestShutdown (st : State) : bool * State :=
  match shutdownHandler st with
  | Some ch =>
      match try_send SIGINT ch with
      | Some ch' => (true, set_chan st ch')
      | None => (false, st)
      end
  | None => (false, st)
  end.

(** The operating system delivers a termination signal. *)
Definition deliver (s : Signal) (st : State) : State :=
  match shutdownHandler st with
  | Some ch =>
      match try_send s ch with
      | Some ch' => set_chan st ch'
      | None => st                     (* the signal package drops it *)
      end
  | None =>
      {| proc := Killed s; onlyOneSignalHandler := onlyOneSignalHandler st;
         shutdownHandler := None; handler := handler st;
         stop_closes := stop_closes st; received := received st; work := work st |}
  end.

(** One statement of the goroutine [go func() { <-shutdownHandler;
    close(stop); <-shutdownHandler; os.Exit(1) }()]. *)
Definition handler_step (st : State) : State :=
  let recv (next : pc) :=
    match shutdownHandler st with
    | Some (_ :: ch) =>
        {| proc := proc st; onlyOneSignalHandler := onlyOneSignalHandler st;
           shutdownHandler := Some ch; handler := Some next;
           stop_closes := stop_closes st; received := S (received st); work := work st |}
    | _ => st                          (* blocked on the empty channel *)
    end in
  match handler st with
  | Some AwaitFirst => recv CloseStop
  | Some CloseStop =>
      {| proc := proc st; onlyOneSignalHandler := onlyOneSignalHandler st;
         shutdownHandler := shutdownHandler st; handler := Some AwaitSecond;
         stop_closes := S (stop_closes st); received := received st; work := work st |}
  | Some AwaitSecond => recv CallExit
  | Some CallExit =>
      {| proc := Exited 1; onlyOneSignalHandler := onlyOneSignalHandler st;
         shutdownHandler := shutdownHandler st; handler := Some Gone;
         stop_closes := stop_closes st; received := received st; work := work st |}
  | Some Gone | None => st
  end.

(** Any statement of another goroutine: serving requests, or the
    shutdown work that starts once [stop] is closed. *)
Definition other_step (st : State) : State :=
  {| proc := proc st; onlyOneSignalHandler := onlyOneSignalHandler st;
     shutdownHandler := shutdownHandler st; handler := handler st;
     stop_closes := stop_closes st; received := received st; work := S (work st) |}.

Inductive label :=
| Deliver (s : Signal)
| Request            (* a goroutine calls RequestShutdown *)
| Handler            (* the signal goroutine runs one statement *)
| Other.             (* another goroutine runs one statement *)

(** Nothing runs in a process that is gone. *)
Definition step (l : label) (st : State) : State :=
  match proc st with
  | Running =>
      match l with
      | Deliver s => deliver s st
      | Request => snd (RequestShutdown st)
      | Handler => handler_step st
      | Other => other_step st
      end
  | _ => st
  end.

Definition run (ls : list label) (st : State) : State :=
  fold_left (fun st l => step l st) ls st.

(** What holds of the process after [SetupSignalHandler], at every point
    of every execution: where the goroutine stands fixes how many signals
    it has taken, how often [stop] has been closed and whether the
    process still runs. *)
Definition armed (st : State) : Prop :=
  (exists ch, shutdownHandler st = Some ch)
  /\ match handler st with
     | Some AwaitFirst => received st = 0%nat /\ stop_closes st = 0%nat /\ proc st = Running
     | Some CloseStop => received st = 1%nat /\ stop_closes st = 0%nat /\ proc st = Running
     | Some AwaitSecond => received st = 1%nat /\ stop_closes st = 1%nat /\ proc st = Running
     | Some CallExit => received st = 2%nat /\ stop_closes st = 1%nat /\ proc st = Running
     | Some Gone => received st = 2%nat /\ stop_closes st = 1%nat /\ proc st = Exited 1
     | None => False
     end.

(** The events that put a signal on [shutdownHandler] when it has room:
    a delivery by the operating system and a call of [RequestShutdown]. *)
Definition is_send (l : label) : bool :=
  match l with Deliver _ | Request => true | _ => false end.

Definition sends (ls : list label) : nat := List.length (List.filter is_send ls).

(** Every signal the goroutine has taken, and every signal waiting in
    the buffer of two, is one of [n] that were sent. *)
Definition accounted (n : nat) (st : State) : Prop :=
  exists ch, shutdownHandler st = Some ch
             /\ (List.length ch <= 2)%nat
             /\ (received st + List.length ch <= n)%nat.

(** A call of [RequestShutdown] read as the signal it stands for,
    [shutdownSignals[0]]. *)
Definition as_signal (l : label) : label :=
  match l with Request => Deliver SIGINT | _ => l end.

End Server.

(** ** Package analytics: the audit pipeline (analytics.go) *)

Module Analytics.

Definition analyticsKeyName : string := "iam-system-analytics".

(** [recordsBufferForcedFlushInterval = 1 * time.Second], in nanoseconds. *)
Definition recordsBufferForcedFlushInterval : Z := 1000000000.

Record AnalyticsRecord := MkRecord {
  TimeStamp : Z;
  Username : string;
  Effect : string;
  Conclusion : string;
  Request : string;
  Policies : string;
  Deciders : string;
  ExpireAt : Z }.

(** int64 arithmetic wraps around. *)
Definition int64 (z : Z) : Z := (z + 2 ^ 63) mod 2 ^ 64 - 2 ^ 63.

(** [time.Second] and [time.Hour]: a [time.Duration] counts nanoseconds. *)
Definition Second : Z := 1000000000.
Definition Hour : Z := 3600 * Second.

(** [func (a *AnalyticsRecord) SetExpiry(expiresInSeconds int64)]; [now]
    is what [time.Now()] returns, an instant in nanoseconds like the
    [ExpireAt] that [t.Add(expiry)] yields. *)
Definition SetExpiry (now : Z) (expiresInSeconds : Z) (a : AnalyticsRecord)
  : AnalyticsRecord :=
  let expiry := int64 (expiresInSeconds * Second) in
  let expiry := if expiresInSeconds =? 0 then 24 * 365 * 100 * Hour else expiry in
  {| TimeStamp := TimeStamp a; Username := Username a; Effect := Effect a;
     Conclusion := Conclusion a; Request := Request a; Policies := Policies a;
     Deciders := Deciders a; ExpireAt := now + expiry |}.

(** The fields of [AnalyticsOptions] that [NewAnalytics] reads:
    [PoolSize int], [RecordsBufferSize uint64], [FlushInterval uint64]. *)
Record AnalyticsOptions := MkOptions {
  PoolSize : Z;
  RecordsBufferSize : Z;
  FlushInterval : Z }.

(** [chan *AnalyticsRecord] with buffer capacity [cap]. *)
Record chan := MkChan {
  buf : list AnalyticsRecord;
  cap : Z;
  closed : bool }.

Record Analytics := MkAnalytics {
  poolSize : Z;
  recordsChan : chan;
  workerBufferSize : Z;
  recordsBufferFlushInterval : Z;
  shouldStop : Z;
  poolWg : Z }.

(** [uint64(ps)] for an [int]. *)
Definition uint64 (z : Z) : Z := z mod 2 ^ 64.

(** [func NewAnalytics(options *AnalyticsOptions, store storage.AnalyticsHandler) *Analytics];
    [None] is the run-time panic of an integer division by zero. *)
Definition NewAnalytics (options : AnalyticsOptions) : option Analytics :=
  let ps := PoolSize options in
  let recordsBufferSize := RecordsBufferSize options in
  if uint64 ps =? 0 then None
  else
    let workerBufferSize := recordsBufferSize / uint64 ps in
    Some {| poolSize := ps;
            recordsChan := {| buf := []; cap := recordsBufferSize; closed := false |};
            workerBufferSize := workerBufferSize;
            recordsBufferFlushInterval := FlushInterval options;
            shouldStop := 0;
            poolWg := 0 |}.

Definition set_chan (r : Analytics) (c : chan) : Analytics :=
  {| poolSize := poolSize r; recordsChan := c;
     workerBufferSize := workerBufferSize r;
     recordsBufferFlushInterval := recordsBufferFlushInterval r;
     shouldStop := shouldStop r; poolWg := poolWg r |}.

Definition set_shouldStop (r : Analytics) (v : Z) : Analytics :=
  {| poolSize := poolSize r; recordsChan := recordsChan r;
     workerBufferSize := workerBufferSize r;
     recordsBufferFlushInterval := recordsBufferFlushInterval r;
     shouldStop := v; poolWg := poolWg r |}.

Definition set_poolWg (r : Analytics) (v : Z) : Analytics :=
  {| poolSize := poolSize r; recordsChan := recordsChan r;
     workerBufferSize := workerBufferSize r;
     recordsBufferFlushInterval := recordsBufferFlushInterval r;
     shouldStop := shouldStop r; poolWg := v |}.

(** What a call can come to. *)
Inductive outcome :=
| Returned (err : option string) (r : Analytics)
| Waits        (* parked in the send until a worker receives *)
| Panics.      (* send on closed channel *)

(** [r.recordsChan <- record] *)
Definition send (r : Analytics) (record : AnalyticsRecord) : outcome :=
  let c := recordsChan r in
  if closed c then Panics
  else if Z.of_nat (List.length (buf c)) <? cap c
       then Returned None
              (set_chan r {| buf := buf c ++ [record]; cap := cap c; closed := false |})
       else Waits.

(** [func (r *Analytics) RecordHit(record *AnalyticsRecord) error] *)
Definition RecordHit (r : Analytics) (record : AnalyticsRecord) : outcome :=
  if 0 <? shouldStop r then Returned None r
  else send r record.

(** A worker goroutine: its private buffer, the time of its last flush,
    and whether it has returned. *)
Record Worker := MkWorker {
  recordsBuffer : list (list Z);
  lastSentTS : Z;
  exited : bool }.

(** What the [select] of one loop iteration yields. *)
Inductive selected :=
| Received (record : AnalyticsRecord)   (* record, ok := <-r.recordsChan with ok *)
| ChanClosed                            (* ok is false *)
| TimedOut.                             (* <-time.After(flush interval) *)

Section Pipeline.

(** [msgpack.Marshal(record)] *)
Variable Marshal : AnalyticsRecord -> option (list Z).

(** One iteration of the loop of [recordWorker]; [since] and [now] are
    the clock readings of [time.Since(lastSentTS)] and of the
    [time.Now()] after a flush.  The second component is what was
    handed to [r.store.AppendToSetPipelined(analyticsKeyName, _)]. *)
Definition worker_iter (r : Analytics) (since now : Z) (sel : selected)
           (w : Worker) : Worker * list (list (list Z)) :=
  match sel with
  | ChanClosed =>
      ({| recordsBuffer := recordsBuffer w; lastSentTS := lastSentTS w;
          exited := true |}, [recordsBuffer w])
  | _ =>
      let '(recordsBuffer, readyToSend) :=
        match sel with
        | Received record =>
            let recordsBuffer :=
              match Marshal record with
              | None => recordsBuffer w          (* error logged *)
              | Some encoded => recordsBuffer w ++ [encoded]
              end in
            (recordsBuffer,
             Z.of_nat (List.length recordsBuffer) =? workerBufferSize r)
        | _ => (recordsBuffer w, true)
        end in
      if (0 <? List.length recordsBuffer)%nat
         && (readyToSend
             || (recordsBufferForcedFlushInterval <=? since - lastSentTS w))
      then ({| recordsBuffer := []; lastSentTS := now; exited := false |},
            [recordsBuffer])
      else ({| recordsBuffer := recordsBuffer; lastSentTS := lastSentTS w;
               exited := false |}, [])
  end.

(** The goroutine [go r.Stop()]: which statement of [Stop] is next. *)
Inductive stop_pc := StopSwap | StopClose | StopWait | StopDone.

(** The pipeline with its goroutines and the backing sink. *)
Record System := MkSystem {
  self : Analytics;
  analytics : bool;                       (* the package variable is set *)
  connected : bool;                       (* r.store.Connect() *)
  workers : list Worker;
  stoppers : list stop_pc;
  sink : list (list (list Z));            (* batches appended to the set *)
  panicked : bool }.

Definition fresh (r : Analytics) : System :=
  {| self := r; analytics := false; connected := false; workers := [];
     stoppers := []; sink := []; panicked := false |}.

(** [for i := 0; i < r.poolSize; i++ { r.poolWg.Add(1); go r.recordWorker() }] *)
Definition spawn_workers (now : Z) (n : Z) : list Worker :=
  repeat {| recordsBuffer := []; lastSentTS := now; exited := false |} (Z.to_nat n).

(** [func (r *Analytics) Start()] *)
Definition Start (now : Z) (s : System) : System :=
  let r := set_shouldStop (self s) 0 in
  let ws := spawn_workers now (poolSize r) in
  {| self := set_poolWg r (poolWg r + Z.of_nat (List.length ws));
     analytics := true; connected := true;
     workers := workers s ++ ws;
     stoppers := stoppers s ++ [StopSwap];
     sink := sink s; panicked := panicked s |}.

Definition with_self (s : System) (r : Analytics) : System :=
  {| self := r; analytics := analytics s; connected := connected s;
     workers := workers s; stoppers := stoppers s; sink := sink s;
     panicked := panicked s |}.

(** One statement of a goroutine running [func (r *Analytics) Stop()]. *)
Definition stop_step (p : stop_pc) (s : System) : stop_pc * System :=
  match p with
  | StopSwap => (StopClose, with_self s (set_shouldStop (self s) 1))
  | StopClose =>
      let c := recordsChan (self s) in
      if closed c
      then (StopClose,
            {| self := self s; analytics := analytics s; connected := connected s;
               workers := workers s; stoppers := stoppers s; sink := sink s;
               panicked := true |})
      else (StopWait,
            with_self s (set_chan (self s)
                           {| buf := buf c; cap := cap c; closed := true |}))
  | StopWait => if poolWg (self s) =? 0 then (StopDone, s) else (StopWait, s)
  | StopDone => (StopDone, s)
  end.

(** What the receive case of a worker's [select] finds. *)
Definition receive (c : chan) : option (selected * chan) :=
  match buf c with
  | record :: rest =>
      Some (Received record, {| buf := rest; cap := cap c; closed := closed c |})
  | [] => if closed c then Some (ChanClosed, c) else None
  end.

Inductive label :=
| StopStep (i : nat)                  (* goroutine i of [stoppers] runs a statement *)
| WorkerRecv (i : nat) (since now : Z) (* worker i takes the receive case *)
| WorkerTimeout (i : nat) (since now : Z)
| Hit (record : AnalyticsRecord).     (* some caller runs RecordHit *)

Definition worker_step (i : nat) (since now : Z) (timeout : bool) (s : System) : System :=
  match workers s !! i with
  | Some w =>
      if exited w then s
      else
        let sel :=
          if timeout then Some (TimedOut, recordsChan (self s))
          else receive (recordsChan (self s)) in
        match sel with
        | None => s                   (* nothing to receive yet *)
        | Some (sel, c) =>
            let '(w', out) := worker_iter (self s) since now sel w in
            let r := set_chan (self s) c in
            let r := if exited w' then set_poolWg r (poolWg r - 1) else r in
            {| self := r; analytics := analytics s; connected := connected s;
               workers := <[i := w']> (workers s); stoppers := stoppers s;
               sink := sink s ++ out; panicked := panicked s |}
        end
  | None => s
  end.

Definition step (l : label) (s : System) : System :=
  if panicked s then s
  else
    match l with
    | StopStep i =>
        match stoppers s !! i with
        | Some p =>
            let '(p', s') := stop_step p s in
            {| self := self s'; analytics := analytics s'; connected := connected s';
               workers := workers s'; stoppers := <[i := p']> (stoppers s');
               sink := sink s'; panicked := panicked s' |}
        | None => s
        end
    | WorkerRecv i since now => worker_step i since now false s
    | WorkerTimeout i since now => worker_step i since now true s
    | Hit record =>
        match RecordHit (self s) record with
        | Returned _ r => with_self s r
        | Waits => s
        | Panics =>
            {| self := self s; analytics := analytics s; connected := connected s;
               workers := workers s; stoppers := stoppers s; sink := sink s;
               panicked := true |}
        end
    end.

Definition run (ls : list label) (s : System) : System :=
  fold_left (fun s l => step l s) ls s.

(** One more goroutine calls [Stop]: the shutdown callback registered by
    [initialize] (server.go), [analyticsIns.Stop()]. *)
Definition call_Stop (s : System) : System :=
  {| self := self s; analytics := analytics s; connected := connected s;
     workers := workers s; stoppers := stoppers s ++ [StopSwap];
     sink := sink s; panicked := panicked s |}.

(** How many statements goroutine [i] of [stoppers] was scheduled for. *)
Definition stop_steps (i : nat) (ls : list label) : nat :=
  List.length
    (List.filter (fun l => match l with StopStep j => Nat.eqb i j | _ => false end) ls).

(** The encoded records held by the workers that are still running. *)
Definition live_buffers (ws : list Worker) : list (list Z) :=
  concat (map recordsBuffer (List.filter (fun w => negb (exited w)) ws)).

(** Every encoded record the pipeline holds: what is still in the channel
    (as far as it can be encoded), what the running workers have
    buffered, and what has reached the sink. *)
Definition in_flight (s : System) : list (list Z) :=
  omap Marshal (buf (recordsChan (self s)))
  ++ live_buffers (workers s) ++ concat (sink s).

(** What a step puts at the back of the channel: the record of a
    [RecordHit] that got through, nothing otherwise. *)
Definition enqueued (l : label) (s : System) : list AnalyticsRecord :=
  match l with
  | Hit _ => drop (List.length (buf (recordsChan (self s))))
                  (buf (recordsChan (self (step l s))))
  | _ => []
  end.

(** The records put on the channel in the course of an execution. *)
Fixpoint accepted (ls : list label) (s : System) : list AnalyticsRecord :=
  match ls with
  | [] => []
  | l :: ls => enqueued l s ++ accepted ls (step l s)
  end.

End Pipeline.

(** Where the one goroutine running [Stop] stands fixes the flag and the
    state of the channel, and nothing panics. *)
Definition stopping (s : System) : Prop :=
  panicked s = false
  /\ exists p, stoppers s = [p]
       /\ shouldStop (self s) = match p with StopSwap => 0 | _ => 1 end
       /\ closed (recordsChan (self s))
          = match p with StopSwap | StopClose => false | _ => true end.

(** How far the goroutine running [Stop] has come. *)
Definition rank (p : stop_pc) : nat :=
  match p with StopSwap => 0 | StopClose => 1 | StopWait => 2 | StopDone => 3 end.

(** Once a worker has returned, the channel is closed and empty. *)
Definition drained (s : System) : Prop :=
  (exists w, In w (workers s) /\ exited w = true) ->
  closed (recordsChan (self s)) = true /\ buf (recordsChan (self s)) = [].

(** Two goroutines run [Stop], scheduled for [n0] and [n1] statements:
    at most one of them gets past [close(r.recordsChan)], and while
    nothing has panicked each has advanced as far as it was scheduled. *)
Definition stopping_twice (n0 n1 : nat) (s : System) : Prop :=
  exists p q, stoppers s = [p; q]
    /\ ((2 <= rank p)%nat -> (2 <= rank q)%nat -> False)
    /\ (panicked s = false ->
        (closed (recordsChan (self s)) = true <-> (2 <= rank p)%nat \/ (2 <= rank q)%nat)
        /\ ((n0 <= rank p)%nat \/ (2 <= rank p)%nat)
        /\ ((n1 <= rank q)%nat \/ (2 <= rank q)%nat)).

(** How many workers are still running. *)
Definition running (ws : list Worker) : nat :=
  List.length (List.filter (fun w => negb (exited w)) ws).

(** The wait group counts the running workers, and the goroutine running
    [Stop] is done only when none is left. *)
Definition waited (s : System) : Prop :=
  poolWg (self s) = Z.of_nat (running (workers s))
  /\ (stoppers s = [StopDone] -> running (workers s) = 0%nat).

(** Closes a goal of the form [stopping _] at the statement [q]. *)
Ltac stopping_at q :=
  split; [simpl; assumption|]; exists q;
  simpl; repeat split; simpl;
  try match goal with H : stoppers _ = _ |- _ => rewrite H end;
  first [reflexivity | assumption | congruence].

End Analytics.

(** ** Package authorization: the authorizer (authorizer.go) and its
    handler (authorize.go) *)

Module Authorization.

(** [ladon.Request] *)
Record Request := MkRequest {
  Resource : string;
  Action : string;
  Subject : string;
  Context : gmap string string }.

(** [authzv1.Response] *)
Record Response := MkResponse {
  Allowed : bool;
  Denied : bool;
  Reason : string;
  Error : string }.

Section Authorizer.

(** [ladon.Warden]: [IsAllowed(r *Request) error], [None] being [nil]. *)
Variable IsAllowed : Request -> option string.

(** [func (a *Authorizer) Authorize(request *ladon.Request) *authzv1.Response] *)
Definition Authorize (request : Request) : Response :=
  match IsAllowed request with
  | Some err => {| Allowed := false; Denied := true; Reason := err; Error := "" |}
  | None => {| Allowed := true; Denied := false; Reason := ""; Error := "" |}
  end.

(** [func (a *AuthzHandler) Authorize(c *gin.Context)] once the request
    is bound: [r.Context["username"] = c.GetString("username")], then
    [auth.Authorize(&r)]. *)
Definition handle (keys : gmap string string) (r : Request) : Response :=
  let username := default "" (keys !! "username") in
  Authorize {| Resource := Resource r; Action := Action r; Subject := Subject r;
               Context := <["username" := username]> (Context r) |}.

End Authorizer.

(** Modelled from the spec: the effect of a policy, a "tagged variant
    {Allow, Deny}" of the rules engine, which is not under src/. *)
Inductive effect := AllowAccess | DenyAccess.

(** Modelled from the spec: the policy type of the rules engine, which is
    not under src/ ("an access-control rule with subjects, resources,
    actions, effect (allow/deny), and optional conditions"). *)
Record Policy (Condition : Type) := MkPolicy {
  ID : string;
  Subjects : list string;
  Resources : list string;
  Actions : list string;
  Effect : effect;
  Conditions : list (string * Condition) }.

Arguments ID {Condition}.
Arguments Subjects {Condition}.
Arguments Resources {Condition}.
Arguments Actions {Condition}.
Arguments Effect {Condition}.
Arguments Conditions {Condition}.

Section Warden.

Variable Condition : Type.

(** The wildcard/glob matcher of identifiers (pattern, then value) and
    the evaluation of one condition on the value found under its key. *)
Variable pattern_match : string -> string -> bool.
Variable fulfills : Condition -> option string -> Request -> bool.

(** The policy manager's lookup of the policies applicable to the
    request's subject. *)
Variable FindRequestCandidates : Request -> list (Policy Condition).

(** Modelled from the spec: matching a single policy, which the rules
    engine (not under src/) does: "resource pattern match, action
    pattern match, subject pattern match, and all declared conditions
    evaluating true against request.Context". *)
Definition policy_matches (p : Policy Condition) (r : Request) : bool :=
  existsb (fun pat => pattern_match pat (Action r)) (Actions p)
  && existsb (fun pat => pattern_match pat (Subject r)) (Subjects p)
  && existsb (fun pat => pattern_match pat (Resource r)) (Resources p)
  && forallb (fun kc => fulfills (snd kc) (Context r !! fst kc) r) (Conditions p).

(** Modelled from the spec: the deny-overrides scan of the rules engine
    (not under src/) over the applicable policies, in order: a matching
    policy with effect deny blocks at once, and the request is allowed
    only if some matching policy allowed it. *)
Fixpoint DoPoliciesAllow (r : Request) (policies : list (Policy Condition))
         (allowed : bool) : option string :=
  match policies with
  | [] => if allowed then None else Some "Request was denied by default"
  | p :: rest =>
      if policy_matches p r then
        match Effect p with
        | DenyAccess => Some "Request was forcefully denied"
        | AllowAccess => DoPoliciesAllow r rest true
        end
      else DoPoliciesAllow r rest allowed
  end.

(** Modelled from the spec: the warden's [IsAllowed], not under src/. *)
Definition warden_IsAllowed (r : Request) : option string :=
  DoPoliciesAllow r (FindRequestCandidates r) false.

(** [Evaluate(request) -> Decision]: the authorizer over this warden. *)
Definition Evaluate (r : Request) : Response := Authorize warden_IsAllowed r.

(** Policy [p] is applicable, matches the request and has effect [e]. *)
Definition matching (e : effect) (r : Request) (p : Policy Condition) : Prop :=
  In p (FindRequestCandidates r) /\ policy_matches p r = true /\ Effect p = e.

End Warden.

End Authorization.

(** ** Concrete values used by the examples *)

Module Examples.

(** The notification of the specification's example: signed for payload
    p1, with p2 substituted afterwards. *)
Definition tampered : Load.Notification :=
  Load.MkNotification "PolicyChanged" "p2"
    "14606d600ecdaffadc8ef93a0d41a75fe4b2423d1f4ad8370e74f2f7d4a7ed3b"
    Load.HashSHA256.

(** A store whose [Reload] always succeeds. *)
Definition reload_ok (s : unit) : option string * unit := (None, s).

(** The loader right after start-up: nothing queued, nothing pending. *)
Definition idle : Load.State unit := Load.MkState unit [] [] tt [] false.

(** Three requests pending, one of them with a callback. *)
Definition pending : Load.State unit :=
  Load.MkState unit [] [None; Some 7%nat; None] tt [] false.

(** A secret cache without entries, a request without the Authorization
    header, and a fresh request context. *)
Definition no_secrets (kid : string) : option Auth.Secret := None.

Definition no_header : Auth.Request := Auth.MkRequest "" None.

Definition fresh_context : Auth.Context := Auth.MkContext ∅ None false false.

(** 2023-11-14 22:13:20 UTC, and a secret that expired one second earlier. *)
Definition a_time : Auth.Time := Auth.MkTime 1700000000 0.

Definition just_expired : Auth.Secret :=
  Auth.MkSecret "colin" "kid-1" "key-material" 1699999999.

(** A cache with one secret that never expires, and a request whose
    bearer token names it and is signed with its key. *)
Definition colin : Auth.Secret := Auth.MkSecret "colin" "kid-1" "key-material" 0.

Definition one_secret (kid : string) : option Auth.Secret :=
  if String.eqb kid "kid-1" then Some colin else None.

Definition signed_request : Auth.Request :=
  Auth.MkRequest "Bearer token"
    (Some (Auth.MkToken true (Some "kid-1") (String.eqb "key-material") true)).

(** An audit record, a one-worker pipeline with room for one record, and
    that pipeline with its channel full. *)
Definition a_record : Analytics.AnalyticsRecord :=
  Analytics.MkRecord 1700000000 "colin" "allow" "" "" "" "" 0.

Definition small : Analytics.AnalyticsOptions := Analytics.MkOptions 1 1 200.

Definition small_pipeline : Analytics.Analytics :=
  Analytics.MkAnalytics 1 (Analytics.MkChan [] 1 false) 1 200 0 0.


(** Two workers sharing a capacity of four, a worker that already holds
    one encoded record, and an encoder. *)
Definition two_workers : Analytics.AnalyticsOptions := Analytics.MkOptions 2 4 200.

Definition half_full : Analytics.Worker := Analytics.MkWorker [[1]] 0 false.

Definition encode (r : Analytics.AnalyticsRecord) : option (list Z) := Some [2].

(** Two policies for colin, with identifiers compared for equality and no
    conditions: reading articles is allowed, deleting them is denied, and
    a third policy allows deleting them. *)
Definition may_read : Authorization.Policy unit :=
  Authorization.MkPolicy unit "p1" ["colin"] ["articles"] ["read"]
    Authorization.AllowAccess [].

Definition may_delete : Authorization.Policy unit :=
  Authorization.MkPolicy unit "p2" ["colin"] ["articles"] ["delete"]
    Authorization.AllowAccess [].

Definition never_delete : Authorization.Policy unit :=
  Authorization.MkPolicy unit "p3" ["colin"] ["articles"] ["delete"]
    Authorization.DenyAccess [].

Definition policies_of (r : Authorization.Request) : list (Authorization.Policy unit) :=
  if String.eqb (Authorization.Subject r) "colin"
  then [may_read; may_delete; never_delete] else [].

Definition no_condition (c : unit) (v : option string) (r : Authorization.Request) : bool :=
  true.

Definition decide_for (subject action : string) : Authorization.Response :=
  Authorization.Evaluate unit String.eqb no_condition policies_of
    (Authorization.MkRequest "articles" action subject ∅).

(** A store whose [Reload] always fails. *)
Definition reload_fails (s : unit) : option string * unit :=
  (Some "connection refused", s).

(** Three notifications with known commands, the first and the last with
    a callback, followed by ticks; and values that the listener passes
    over. *)
Definition burst : list (Load.Notification * Load.func) :=
  [ (Load.MkNotification "PolicyChanged" "p1" "" Load.HashUnset, Some 1%nat);
    (Load.MkNotification "SecretChanged" "s1" "" Load.HashUnset, None);
    (Load.MkNotification "PolicyChanged" "p2" "" Load.HashUnset, Some 2%nat) ].

Definition burst_then_ticks : list Load.event :=
  map (fun nf => Load.Arrives (Load.Message (Some (fst nf))) false (snd nf)) burst
  ++ [Load.Ticks; Load.Ticks].

Definition noise : list Load.event :=
  [ Load.Arrives Load.NotAMessage false None;
    Load.Arrives (Load.Message None) false None;
    Load.Arrives
      (Load.Message (Some (Load.MkNotification "UserChanged" "u1" "" Load.HashUnset)))
      false None;
    Load.Ticks ].


(** A pipeline of two workers, each with a capacity of two, and a
    configuration with more workers than buffer. *)
Definition two_worker_pipeline : Analytics.Analytics :=
  Analytics.MkAnalytics 2 (Analytics.MkChan [] 4 false) 2 200 0 0.

Definition starved : Analytics.AnalyticsOptions := Analytics.MkOptions 4 2 200.

(** One record is sent, the goroutine of [Start] stops the pipeline, and
    the worker drains the channel and returns. *)
Definition a_full_run : list Analytics.label :=
  [ Analytics.Hit a_record; Analytics.StopStep 0; Analytics.StopStep 0;
    Analytics.WorkerRecv 0 1 1; Analytics.WorkerRecv 0 2 2 ].

(** Both calls of [Stop] run their first two statements. *)
Definition two_stops : list Analytics.label :=
  [ Analytics.StopStep 0; Analytics.StopStep 0;
    Analytics.StopStep 1; Analytics.StopStep 1 ].

(** A warden that allows everything, and a request to read articles. *)
Definition allow_all (r : Authorization.Request) : option string := None.

Definition read_articles : Authorization.Request :=
  Authorization.MkRequest "articles" "read" "colin" ∅.

(** A pipeline that has been stopped with two records still in the
    channel and one in the buffer of its only worker. *)
Definition stopped_with_backlog : Analytics.System :=
  Analytics.MkSystem
    (Analytics.MkAnalytics 1 (Analytics.MkChan [a_record; a_record] 4 true) 4 200 1 1)
    true true [half_full] [Analytics.StopWait] [] false.

End Examples.

(** * Theorems *)

(** ** Notifications: signing and the listener *)

Section Notifications.

Import Load.

(** Known answers of SHA-256, one and two blocks long. *)
Example sum256_abc :
  Hex.EncodeToString (SHA256.Sum256 (bytes_of_string "abc"))
  = "ba7816bf8f01cfea414140de5dae2223b00361a396177a9cb410ff61f20015ad"%string.
Proof. vm_compute. reflexivity. Qed.

Example sum256_two_blocks :
  Hex.EncodeToString
    (SHA256.Sum256 (bytes_of_string
       "aaaaaaaaaaaaaaaaaaaaaaaaaaaaaaaaaaaaaaaaaaaaaaaaaaaaaaaa"))
  = "b35439a4ac6f0948b6d6f9e3c6af0f5f590ce20f1bde7090ef7970686ec6738a"%string.
Proof. vm_compute. reflexivity. Qed.

Lemma bytes_of_string_app (a b : string) :
  bytes_of_string (String.append a b) = bytes_of_string a ++ bytes_of_string b.
Proof.
  unfold bytes_of_string.
  induction a as [|c a IH]; simpl; [reflexivity|].
  f_equal. exact IH.
Qed.

Lemma EncodeToString_length (l : list Z) :
  String.length (Hex.EncodeToString l) = (2 * List.length l)%nat.
Proof. induction l as [|v l IH]; simpl; [reflexivity | rewrite IH; lia]. Qed.

Lemma Sum256_length (data : list Z) : List.length (SHA256.Sum256 data) = 32%nat.
Proof. reflexivity. Qed.

(** Every signature is 64 hexadecimal characters long. *)
Lemma Sign_signature_length (n : Notification) :
  String.length (Signature (Sign n)) = 64%nat.
Proof.
  unfold Sign; cbn [Signature].
  rewrite EncodeToString_length, Sum256_length. reflexivity.
Qed.

Example Sign_PolicyChanged_p1 :
  Signature (Sign (MkNotification "PolicyChanged" "p1" "" HashUnset))
  = "14606d600ecdaffadc8ef93a0d41a75fe4b2423d1f4ad8370e74f2f7d4a7ed3b"%string.
Proof. vm_compute. reflexivity. Qed.

(** No separator goes between the two fields: moving the boundary between
    command and payload does not change the signature. *)
Example Sign_no_separator :
  Signature (Sign (MkNotification "ab" "c" "" HashUnset))
  = Signature (Sign (MkNotification "a" "bc" "" HashUnset)).
Proof. reflexivity. Qed.

(** C10: [Sign] sets [Signature] to the hex encoding of the SHA-256 digest
    of the bytes of [Command] immediately followed by the bytes of
    [Payload] (and [SignatureAlgo] to SHA-256, leaving the two signed
    fields alone), so two notifications with the same [Command] and
    [Payload] receive the same signature, whatever their other fields
    held before. *)
Theorem Sign_hash_of_concatenation (n m : Notification) :
  Command n = Command m ->
  Payload n = Payload m ->
  Signature (Sign n)
  = Hex.EncodeToString
      (SHA256.Sum256 (bytes_of_string (Command n) ++ bytes_of_string (Payload n)))
  /\ SignatureAlgo (Sign n) = HashSHA256
  /\ Command (Sign n) = Command n
  /\ Payload (Sign n) = Payload n
  /\ Signature (Sign n) = Signature (Sign m).
Proof.
  intros Hc Hp. unfold Sign; simpl.
  rewrite <- Hc, <- Hp, bytes_of_string_app.
  repeat split; reflexivity.
Qed.

Lemma Sign_hash_of_concatenation_witness :
  Command (MkNotification "PolicyChanged" "p1" "" HashUnset)
  = Command (MkNotification "PolicyChanged" "p1" "stale" (HashOther 3))
  /\ Signature (Sign (MkNotification "PolicyChanged" "p1" "" HashUnset))
     = Signature (Sign (MkNotification "PolicyChanged" "p1" "stale" (HashOther 3))).
Proof.
  split; [reflexivity|].
  apply (Sign_hash_of_concatenation
           (MkNotification "PolicyChanged" "p1" "" HashUnset)
           (MkNotification "PolicyChanged" "p1" "stale" (HashOther 3)));
    reflexivity.
Defined.

End Notifications.

(** ** The reload queue and the reload ticker *)

Section Reloading.

Import Load.

Variable store : Type.
Variable store_Reload : store -> option string * store.

Implicit Type st : State store.

Lemma actions_app (t u : list effect) : actions (t ++ u) = actions t ++ actions u.
Proof. unfold actions. apply List.filter_app. Qed.

Lemma reloads_app (t u : list effect) : reloads (t ++ u) = (reloads t + reloads u)%nat.
Proof. unfold reloads. rewrite List.filter_app, List.length_app. reflexivity. Qed.

Lemma reloads_actions (t : list effect) : reloads (actions t) = reloads t.
Proof.
  unfold reloads, actions.
  induction t as [|e t IH]; [reflexivity|].
  destruct e; simpl; rewrite ?IH; reflexivity.
Qed.

Lemma reloads_calls (ids : list nat) : reloads (map Call ids) = 0%nat.
Proof. induction ids; [reflexivity | assumption]. Qed.

Lemma run_callbacks_spec (cb : list func) st :
  trace (run_callbacks cb st) = trace st ++ map Call (non_nil cb)
  /\ requeue (run_callbacks cb st) = requeue st
  /\ reloadQueue (run_callbacks cb st) = reloadQueue st
  /\ l_store (run_callbacks cb st) = l_store st
  /\ panicked (run_callbacks cb st) = panicked st.
Proof.
  revert st. induction cb as [|c cb IH]; intros st; simpl.
  - rewrite app_nil_r. repeat split.
  - destruct c as [id|]; simpl.
    + destruct (IH (emit [Call id] st)) as (Ht & Hr & Hq & Hs & Hp).
      rewrite Ht, Hr, Hq, Hs, Hp; simpl.
      rewrite <- app_assoc. repeat split.
    + apply IH.
Qed.

Lemma DoReload_spec st :
  actions (trace (DoReload store_Reload st)) = actions (trace st) ++ [StoreReload]
  /\ requeue (DoReload store_Reload st) = requeue st
  /\ reloadQueue (DoReload store_Reload st) = reloadQueue st
  /\ panicked (DoReload store_Reload st) = panicked st.
Proof.
  unfold DoReload.
  destruct (store_Reload (l_store st)) as [[e|] s]; simpl;
    rewrite !actions_app; simpl; rewrite ?app_nil_r; repeat split.
Qed.

Lemma call_first_spec (fs : list func) st :
  actions (trace (call_first fs st))
  = actions (trace st) ++ map Call (non_nil (firstn 1 fs))
  /\ requeue (call_first fs st) = requeue st
  /\ reloadQueue (call_first fs st) = reloadQueue st.
Proof.
  destruct fs as [|[id|] fs]; simpl; rewrite ?actions_app, ?app_nil_r; repeat split.
Qed.

(** With nothing pending a tick does nothing at all. *)
Lemma reloadLoop_tick_idle (complete : list func) st :
  requeue st = [] -> reloadLoop_tick store_Reload complete st = st.
Proof. intros H. unfold reloadLoop_tick, shouldReload. rewrite H. reflexivity. Qed.

Lemma actions_calls (ids : list nat) : actions (map Call ids) = map Call ids.
Proof.
  induction ids as [|i ids IH]; [reflexivity|].
  unfold actions in *; simpl; rewrite IH; reflexivity.
Qed.

(** A trace that grew by one reload and some callbacks holds one more
    reload. *)
Lemma one_more_reload (t t0 : list effect) (ids ids' : list nat) :
  actions t = actions t0 ++ StoreReload :: map Call ids ++ map Call ids' ->
  reloads t = S (reloads t0).
Proof.
  intros Ht. rewrite <- (reloads_actions t), Ht, reloads_app, reloads_actions.
  change (StoreReload :: ?l) with ([StoreReload] ++ l).
  rewrite !reloads_app, !reloads_calls. simpl. lia.
Qed.

(** What a tick does when something is pending. *)
Lemma reloadLoop_tick_pending (complete : list func) st :
  requeue st <> [] ->
  requeue (reloadLoop_tick store_Reload complete st) = []
  /\ reloadQueue (reloadLoop_tick store_Reload complete st) = reloadQueue st
  /\ actions (trace (reloadLoop_tick store_Reload complete st))
     = actions (trace st)
       ++ StoreReload :: map Call (non_nil (requeue st))
       ++ map Call (non_nil (firstn 1 complete)).
Proof.
  intros HN.
  assert (Hact : forall st', actions (trace (emit [Log Info
            "reload: cycle completed in %v"] st')) = actions (trace st')).
  { intros st'. simpl. rewrite actions_app. simpl. apply app_nil_r. }
  unfold reloadLoop_tick, shouldReload.
  destruct (requeue st) as [|c cb] eqn:Hq; [congruence|].
  cbn [negb].
  set (st0 := {| reloadQueue := reloadQueue st; requeue := [];
                 l_store := l_store st; trace := trace st;
                 panicked := panicked st |}).
  destruct (DoReload_spec st0) as (Ht1 & Hr1 & Hq1 & _).
  destruct (run_callbacks_spec (c :: cb) (DoReload store_Reload st0))
    as (Ht2 & Hr2 & Hq2 & _).
  destruct (call_first_spec complete
              (run_callbacks (c :: cb) (DoReload store_Reload st0)))
    as (Ht3 & Hr3 & Hq3).
  assert (Hfinal :
    actions (trace (call_first complete
               (run_callbacks (c :: cb) (DoReload store_Reload st0))))
    = actions (trace st)
      ++ StoreReload :: map Call (non_nil (c :: cb))
      ++ map Call (non_nil (firstn 1 complete))).
  { rewrite Ht3, Ht2, actions_app, Ht1. simpl trace.
    rewrite actions_calls, <- !app_assoc. reflexivity. }
  destruct (panicked (call_first complete _)).
  - rewrite Hr3, Hr2, Hr1, Hq3, Hq2, Hq1. simpl.
    repeat split. exact Hfinal.
  - change (requeue (emit ?e ?s)) with (requeue s).
    change (reloadQueue (emit ?e ?s)) with (reloadQueue s).
    rewrite Hr3, Hr2, Hr1, Hq3, Hq2, Hq1, Hact.
    repeat split. exact Hfinal.
Qed.

(** C7: when N >= 1 callbacks are pending at a tick, the ticker takes the
    whole list and leaves it empty, reloads the store exactly once, and
    after the reload runs the pending callbacks that are not nil, in
    order (followed by the completion callback of the loop, if one was
    given). *)
Theorem reloadLoop_tick_one_reload (complete : list func) st :
  (1 <= List.length (requeue st))%nat ->
  requeue (reloadLoop_tick store_Reload complete st) = []
  /\ reloadQueue (reloadLoop_tick store_Reload complete st) = reloadQueue st
  /\ actions (trace (reloadLoop_tick store_Reload complete st))
     = actions (trace st)
       ++ StoreReload :: map Call (non_nil (requeue st))
       ++ map Call (non_nil (firstn 1 complete))
  /\ reloads (trace (reloadLoop_tick store_Reload complete st))
     = S (reloads (trace st)).
Proof.
  intros HN.
  assert (Hne : requeue st <> []) by (destruct (requeue st); [simpl in HN; lia | discriminate]).
  destruct (reloadLoop_tick_pending complete st Hne) as (Hr & Hq & Ha).
  repeat split; try assumption.
  exact (one_more_reload _ _ _ _ Ha).
Qed.

Lemma receive_one_recognized (n : Notification) st :
  recognized n = true -> reloadQueue st = [] ->
  let st' := reloadQueue_recv [] (pubsub_handler (Message (Some n)) st) in
  reloadQueue st' = [] /\ requeue st' = requeue st ++ [None]
  /\ actions (trace st') = actions (trace st).
Proof.
  intros Hn Hq. unfold pubsub_handler, handleRedisEvent.
  unfold recognized in Hn. rewrite Hn.
  unfold reloadQueue_recv. simpl. rewrite Hq. simpl.
  repeat split.
  rewrite !actions_app. simpl. rewrite !app_nil_r. reflexivity.
Qed.

Lemma receive_all_recognized (ns : list Notification) st :
  Forall (fun n => recognized n = true) ns -> reloadQueue st = [] ->
  let st' := receive_all (map (fun n => Message (Some n)) ns) st in
  reloadQueue st' = []
  /\ requeue st' = requeue st ++ repeat None (List.length ns)
  /\ actions (trace st') = actions (trace st).
Proof.
  intros Hall. revert st.
  induction Hall as [|n ns Hn Hall IH]; intros st Hq.
  - simpl. rewrite app_nil_r. repeat split. exact Hq.
  - destruct (receive_one_recognized n st Hn Hq) as (Hq1 & Hr1 & Ht1).
    destruct (IH _ Hq1) as (Hq2 & Hr2 & Ht2).
    change (receive_all (map (fun n => Message (Some n)) (n :: ns)) st)
      with (receive_all (map (fun n => Message (Some n)) ns)
              (reloadQueue_recv [] (pubsub_handler (Message (Some n)) st))).
    cbv zeta. rewrite Hq2, Hr2, Ht2, Hr1, Ht1, <- app_assoc. repeat split.
Qed.

(** Debouncing end to end: N >= 1 recognized notifications received
    between two ticks fill the pending list with N entries, and the
    ticks that follow reload the store once, not N times. *)
Lemma burst_is_one_reload (ns : list Notification) st :
  Forall (fun n => recognized n = true) ns -> ns <> [] ->
  reloadQueue st = [] -> requeue st = [] ->
  let st1 := receive_all (map (fun n => Message (Some n)) ns) st in
  List.length (requeue st1) = List.length ns
  /\ reloads (trace (reloadLoop store_Reload [] [Tick; Tick] st1))
     = S (reloads (trace st)).
Proof.
  intros Hall Hne Hq Hr st1.
  destruct (receive_all_recognized ns st Hall Hq) as (Hq1 & Hr1 & Ht1).
  fold st1 in Hq1, Hr1, Ht1. rewrite Hr in Hr1. simpl in Hr1.
  split; [rewrite Hr1; apply List.repeat_length|].
  assert (HN : requeue st1 <> []).
  { rewrite Hr1. destruct ns; [congruence | discriminate]. }
  destruct (reloadLoop_tick_pending [] st1 HN) as (Hr2 & _ & Ha2).
  pose proof (one_more_reload _ _ _ _ Ha2) as Hn2.
  simpl reloadLoop.
  destruct (panicked (reloadLoop_tick store_Reload [] st1)).
  - rewrite Hn2, <- (reloads_actions (trace st1)), Ht1, reloads_actions. reflexivity.
  - rewrite (reloadLoop_tick_idle [] _ Hr2).
    destruct (panicked _);
      rewrite Hn2, <- (reloads_actions (trace st1)), Ht1, reloads_actions;
      reflexivity.
Qed.

End Reloading.

Lemma reloadLoop_tick_one_reload_witness :
  (1 <= List.length (Load.requeue Examples.pending))%nat
  /\ Load.requeue (Load.reloadLoop_tick Examples.reload_ok [] Examples.pending) = []
  /\ Load.reloadQueue (Load.reloadLoop_tick Examples.reload_ok [] Examples.pending)
     = Load.reloadQueue Examples.pending
  /\ Load.actions (Load.trace (Load.reloadLoop_tick Examples.reload_ok [] Examples.pending))
     = Load.actions (Load.trace Examples.pending)
       ++ Load.StoreReload
          :: map Load.Call (Load.non_nil (Load.requeue Examples.pending))
          ++ map Load.Call (Load.non_nil (firstn 1 []))
  /\ Load.reloads (Load.trace (Load.reloadLoop_tick Examples.reload_ok [] Examples.pending))
     = S (Load.reloads (Load.trace Examples.pending)).
Proof.
  split; [simpl; lia|].
  apply (reloadLoop_tick_one_reload unit Examples.reload_ok [] Examples.pending).
  simpl; lia.
Defined.

Example pending_tick_trace :
  Load.actions (Load.trace (Load.reloadLoop_tick Examples.reload_ok [] Examples.pending))
  = [Load.StoreReload; Load.Call 7%nat].
Proof. reflexivity. Qed.

(** ** The listener and the signature of a notification *)

Section Listener.

Import Load.

Variable store : Type.

Implicit Type st : State store.

(** What the listener does with a decoded notification is decided by its
    command alone. *)
Lemma handleRedisEvent_queue (n : Notification) (handled : bool) (reloaded : func) st :
  reloadQueue (handleRedisEvent (Message (Some n)) handled reloaded st)
  = reloadQueue st ++ (if recognized n then [reloaded] else []).
Proof.
  unfold handleRedisEvent, recognized.
  destruct (_ || _); [destruct handled|]; simpl; rewrite ?app_nil_r; reflexivity.
Qed.

(** C2, as the code has it: the listener never looks at [Signature].  A
    decoded notification puts exactly one reload request on the queue
    when its command is PolicyChanged or SecretChanged and none
    otherwise; replacing the signature and the algorithm by any other
    values changes nothing in what the listener does; a value that is
    not a message, or a message that does not decode, produces no
    request. *)
Theorem handleRedisEvent_ignores_signature
        (n : Notification) (handled : bool) (reloaded : func) st :
  reloadQueue (handleRedisEvent (Message (Some n)) handled reloaded st)
  = reloadQueue st ++ (if recognized n then [reloaded] else [])
  /\ requeue (handleRedisEvent (Message (Some n)) handled reloaded st) = requeue st
  /\ (forall (sig : string) (algo : crypto_Hash),
        handleRedisEvent
          (Message (Some (MkNotification (Command n) (Payload n) sig algo)))
          handled reloaded st
        = handleRedisEvent (Message (Some n)) handled reloaded st)
  /\ reloadQueue (handleRedisEvent (Message None) handled reloaded st) = reloadQueue st
  /\ reloadQueue (handleRedisEvent NotAMessage handled reloaded st) = reloadQueue st.
Proof.
  split; [apply handleRedisEvent_queue|].
  split.
  { unfold handleRedisEvent. destruct (_ || _); [destruct handled|]; reflexivity. }
  split; [intros sig algo; reflexivity|].
  split; reflexivity.
Qed.

End Listener.

(** C2 fails as stated: the notification of the specification's own
    example (signed for payload p1, payload p2 substituted afterwards) does
    not carry the hash of its command and payload, and still the listener
    queues a reload request for it, the queue loop makes it pending, and
    the next tick reloads the store. *)
Lemma forged_notification_is_accepted :
  Load.signature_matches Examples.tampered = false
  /\ Load.reloadQueue
       (Load.pubsub_handler (Load.Message (Some Examples.tampered)) Examples.idle)
     = [None]
  /\ Load.requeue
       (Load.receive_all [Load.Message (Some Examples.tampered)] Examples.idle)
     = [None]
  /\ Load.reloads
       (Load.trace
          (Load.reloadLoop_tick Examples.reload_ok []
             (Load.receive_all [Load.Message (Some Examples.tampered)] Examples.idle)))
     = 1%nat.
Proof. vm_compute. repeat split. Qed.

(** The same notification with the signature [Sign] gives it does match. *)
Example signed_notification_matches :
  Load.signature_matches (Load.Sign Examples.tampered) = true.
Proof. vm_compute. reflexivity. Qed.

(** ** The cache authentication strategy *)

Section Authentication.

Import Auth.

(** When [KeyExpired] says yes: the expiry is a positive epoch second
    that lies strictly before the current instant. *)
Lemma KeyExpired_true_iff (now : Time) (expires : Z) :
  KeyExpired now expires = true
  <-> 1 <= expires
      /\ (expires < t_sec now \/ (expires = t_sec now /\ 0 < t_nsec now)).
Proof.
  unfold KeyExpired, After, time_Unix; simpl.
  destruct (Z.leb_spec 1 expires) as [H1|H1].
  - rewrite orb_true_iff, andb_true_iff, Z.ltb_lt, Z.eqb_eq, Z.ltb_lt. lia.
  - split; [discriminate | lia].
Qed.

(** Values below 1, zero among them, never expire. *)
Lemma KeyExpired_unset (now : Time) (expires : Z) :
  expires <= 0 -> KeyExpired now expires = false.
Proof.
  intros H. unfold KeyExpired.
  destruct (Z.leb_spec 1 expires); [lia | reflexivity].
Qed.

(** The comparison is strict: at the expiry second itself, with no
    nanosecond elapsed, the key still counts. *)
Lemma KeyExpired_at_expiry (expires : Z) :
  KeyExpired (MkTime expires 0) expires = false.
Proof.
  unfold KeyExpired, After, time_Unix; simpl.
  rewrite Z.ltb_irrefl, andb_false_r. destruct (1 <=? expires); reflexivity.
Qed.

(** C5: a secret whose [Expires] is set (a positive epoch second, 0 being
    the value for never) to one second before the current time is
    expired, and a secret with [Expires = 0] is expired at no time. *)
Theorem KeyExpired_boundary (now : Time) (s : Secret) :
  0 < Expires s ->
  Expires s = t_sec now - 1 ->
  KeyExpired now (Expires s) = true
  /\ (forall (t : Time) (z : Secret), Expires z = 0 -> KeyExpired t (Expires z) = false).
Proof.
  intros Hpos Hs. split.
  - apply KeyExpired_true_iff. lia.
  - intros t z Hz. apply KeyExpired_unset. lia.
Qed.

Variable get : string -> option Secret.

(** A missing key id and an unknown key id both reach the caller under
    the code for an invalid signature, their own error in the message. *)
Lemma keyFunc_errors_are_signature_errors (now : Time) (req : Request) (c : Context)
      (token : Token) (e : keyfunc_error) :
  Authorization req <> ""%string ->
  bearer req = Some token ->
  keyFunc get token = inl e ->
  written (AuthFunc get now req c) = Some (ErrSignatureInvalid, MsgJWT (Unverifiable e)).
Proof.
  intros Hh Hb Hk. unfold AuthFunc.
  destruct (Authorization req) as [|a h]; [congruence|]. simpl.
  rewrite Hb. simpl. rewrite Hk. reflexivity.
Qed.

(** The handler ends in exactly one of four ways. *)
Lemma AuthFunc_cases (now : Time) (req : Request) (c : Context) :
  (Authorization req = ""%string
   /\ AuthFunc get now req c = abort_with c ErrMissingHeader MsgHeaderEmpty)
  \/ (exists err : jwt_error,
        Authorization req <> ""%string
        /\ ParseWithClaims get (bearer req) = inl err
        /\ AuthFunc get now req c = abort_with c ErrSignatureInvalid (MsgJWT err))
  \/ (exists secret : Secret,
        Authorization req <> ""%string
        /\ ParseWithClaims get (bearer req) = inr secret
        /\ KeyExpired now (Expires secret) = true
        /\ AuthFunc get now req c
           = abort_with c ErrExpired (MsgExpiredAt (Expires secret)))
  \/ (exists (token : Token) (kid : string) (secret : Secret),
        Authorization req <> ""%string
        /\ bearer req = Some token
        /\ method_is_HMAC token = true
        /\ header_kid token = Some kid
        /\ get kid = Some secret
        /\ verifies token (Key secret) = true
        /\ claims_valid token = true
        /\ KeyExpired now (Expires secret) = false
        /\ AuthFunc get now req c
           = {| Keys := <[UsernameKey := Username secret]> (Keys c);
                written := written c; aborted := aborted c; next := true |}).
Proof.
  unfold AuthFunc.
  destruct (Authorization req) as [|a h] eqn:Hh; simpl.
  { left. split; reflexivity. }
  right.
  destruct (ParseWithClaims get (bearer req)) as [err|secret] eqn:Hp.
  { left. exists err. split; [discriminate|]. split; reflexivity. }
  right.
  destruct (KeyExpired now (Expires secret)) eqn:Hx.
  { left. exists secret. split; [discriminate|]. split; [reflexivity|].
    split; [exact Hx | reflexivity]. }
  right.
  unfold ParseWithClaims, keyFunc in Hp.
  destruct (bearer req) as [token|]; [|discriminate].
  destruct (method_is_HMAC token) eqn:Hm; simpl in Hp; [|discriminate].
  destruct (header_kid token) as [kid|] eqn:Hk; [|discriminate].
  destruct (get kid) as [sec|] eqn:Hg; [|discriminate].
  destruct (verifies token (Key sec)) eqn:Hv; simpl in Hp; [|discriminate].
  destruct (claims_valid token) eqn:Hc; simpl in Hp; [|discriminate].
  injection Hp as ->.
  exists token, kid, secret.
  split; [discriminate|].
  repeat (split; [first [reflexivity | assumption]|]).
  reflexivity.
Qed.

(** C6, as the code has it: on a request whose response is still
    unwritten, every error the handler writes carries one of three codes:
    MissingHeader (the Authorization header is empty), SignatureInvalid
    (the token cannot be decoded, its key cannot be found for want of a
    kid or of a secret, its signature does not verify or its claims are
    invalid; the parser's error is the message) or Expired (the resolved
    secret has expired); the request is then aborted and the identity
    slot left alone.  When it writes no error it has resolved the token's
    kid to a secret, verified the signature with that secret's key, and
    bound the secret's [Username] under the username key before passing
    the request on. *)
Theorem AuthFunc_outcomes (now : Time) (req : Request) (c : Context) :
  written c = None ->
  (forall (e : code) (m : message),
      written (AuthFunc get now req c) = Some (e, m) ->
      aborted (AuthFunc get now req c) = true
      /\ next (AuthFunc get now req c) = next c
      /\ Keys (AuthFunc get now req c) = Keys c
      /\ ((e = ErrMissingHeader /\ m = MsgHeaderEmpty /\ Authorization req = ""%string)
          \/ (e = ErrSignatureInvalid
              /\ exists err, m = MsgJWT err
                             /\ ParseWithClaims get (bearer req) = inl err)
          \/ (e = ErrExpired
              /\ exists secret, m = MsgExpiredAt (Expires secret)
                                /\ ParseWithClaims get (bearer req) = inr secret
                                /\ KeyExpired now (Expires secret) = true)))
  /\ (Authorization req = ""%string ->
      written (AuthFunc get now req c) = Some (ErrMissingHeader, MsgHeaderEmpty))
  /\ (written (AuthFunc get now req c) = None ->
      exists (token : Token) (kid : string) (secret : Secret),
        bearer req = Some token
        /\ header_kid token = Some kid
        /\ get kid = Some secret
        /\ verifies token (Key secret) = true
        /\ KeyExpired now (Expires secret) = false
        /\ Keys (AuthFunc get now req c) !! UsernameKey = Some (Username secret)
        /\ next (AuthFunc get now req c) = true
        /\ aborted (AuthFunc get now req c) = aborted c).
Proof.
  intros Hfresh.
  destruct (AuthFunc_cases now req c)
    as [(Hh & H) | [(err & Hh & Hp & H) | [(s & Hh & Hp & Hx & H) | H]]].
  - rewrite H. simpl. split; [|split; [reflexivity | discriminate]].
    intros e m [= <- <-]. repeat split. left. auto.
  - rewrite H. simpl. split; [|split; [congruence | discriminate]].
    intros e m [= <- <-]. repeat split. right; left. split; [reflexivity|].
    exists err. auto.
  - rewrite H. simpl. split; [|split; [congruence | discriminate]].
    intros e m [= <- <-]. repeat split. right; right. split; [reflexivity|].
    exists s. auto.
  - destruct H as (t & k & s & Hh & Hb & Hm & Hk & Hg & Hv & Hc & Hx & H).
    rewrite H. simpl. split; [|split; [congruence|]].
    + intros e m Hw. congruence.
    + intros _. exists t, k, s.
      repeat (split; [assumption|]).
      split; [apply lookup_insert_eq | split; reflexivity].
Qed.

End Authentication.

Lemma KeyExpired_boundary_witness :
  0 < Auth.Expires Examples.just_expired
  /\ Auth.Expires Examples.just_expired = Auth.t_sec Examples.a_time - 1
  /\ Auth.KeyExpired Examples.a_time (Auth.Expires Examples.just_expired) = true
  /\ (forall (t : Auth.Time) (z : Auth.Secret),
        Auth.Expires z = 0 -> Auth.KeyExpired t (Auth.Expires z) = false).
Proof.
  split; [reflexivity|]. split; [reflexivity|].
  apply (KeyExpired_boundary Examples.a_time Examples.just_expired); reflexivity.
Defined.

(** C6 fails as stated: a request without the Authorization header is
    answered with the MissingHeader code, which is none of MissingKeyID,
    MissingSecret, InvalidSignature and Expired. *)
Lemma missing_header_is_a_fifth_error :
  Auth.written
    (Auth.AuthFunc Examples.no_secrets Examples.a_time Examples.no_header
       Examples.fresh_context)
  = Some (Auth.ErrMissingHeader, Auth.MsgHeaderEmpty)
  /\ Auth.kind_of (Auth.ErrMissingHeader, Auth.MsgHeaderEmpty) = None
  /\ Auth.aborted
       (Auth.AuthFunc Examples.no_secrets Examples.a_time Examples.no_header
          Examples.fresh_context)
     = true.
Proof. repeat split. Qed.

(** ** The signal handler *)

Section Signals.

Import Server.

Lemma armed_setup : armed (SetupSignalHandler initial).
Proof. split; [exists []; reflexivity | repeat split]. Qed.

Lemma armed_step (l : label) (st : State) : armed st -> armed (step l st).
Proof.
  intros [[ch Hch] H]. unfold step.
  destruct (handler st) as [[| | | |]|] eqn:Hh; try contradiction;
    destruct H as (Hr & Hc & Hp); rewrite Hp;
    try (split; [exists ch; exact Hch | rewrite Hh; repeat split; assumption]);
    destruct l as [s| | |]; unfold deliver, RequestShutdown, handler_step, other_step;
    rewrite ?Hch, ?Hh;
    try (destruct (try_send _ ch) as [ch'|]; simpl);
    try (destruct ch as [|x ch]; simpl);
    (split; [eexists; simpl; first [reflexivity | eassumption]
            | simpl; rewrite ?Hh; simpl; rewrite ?Hr, ?Hc; repeat split; assumption]).
Qed.

Lemma run_snoc (ls : list label) (l : label) (st : State) :
  run (ls ++ [l]) st = step l (run ls st).
Proof. unfold run. rewrite fold_left_app. reflexivity. Qed.

Lemma armed_run (ls : list label) (st : State) : armed st -> armed (run ls st).
Proof.
  intros H. induction ls as [|l ls IH] using rev_ind; [exact H|].
  rewrite run_snoc. apply armed_step, IH.
Qed.

(** Once the process has exited no goroutine runs any more. *)
Lemma exited_is_final (ls : list label) (st : State) (code : Z) :
  proc st = Exited code -> run ls st = st.
Proof.
  intros H. induction ls as [|l ls IH] using rev_ind; [reflexivity|].
  rewrite run_snoc, IH. unfold step. rewrite H. reflexivity.
Qed.

(** A signal that arrives while the goroutine waits is taken by it. *)
Lemma signal_is_taken (s : Signal) (st : State) (ch : list Signal) :
  proc st = Running -> shutdownHandler st = Some ch ->
  exists x ch', shutdownHandler (step (Deliver s) st) = Some (x :: ch')
                /\ handler (step (Deliver s) st) = handler st
                /\ received (step (Deliver s) st) = received st
                /\ stop_closes (step (Deliver s) st) = stop_closes st
                /\ proc (step (Deliver s) st) = Running.
Proof.
  intros Hp Hch. unfold step, deliver. rewrite Hp, Hch.
  unfold try_send.
  destruct ch as [|x ch].
  - exists s, []. simpl. repeat split. exact Hp.
  - destruct (List.length (x :: ch) <? 2)%nat.
    + exists x, (ch ++ [s]). simpl. repeat split. exact Hp.
    + exists x, ch. repeat split; assumption.
Qed.

(** C8: in every execution after [SetupSignalHandler], [stop] is closed
    at most once, and it is closed exactly when the goroutine has taken
    the first termination signal and run its next statement; when it has
    taken a second one the process exits with status 1, after which no
    goroutine runs another statement.  A signal delivered while the
    goroutine waits for the first one leads to the close, and one
    delivered while it waits for the second leads to the exit. *)
Theorem SetupSignalHandler_graceful_then_forced (ls : list label) :
  let st := run ls (SetupSignalHandler initial) in
  (stop_closes st <= 1)%nat
  /\ (stop_closes st = 1%nat
      <-> (1 <= received st)%nat /\ handler st <> Some CloseStop)
  /\ (proc st = Exited 1 <-> handler st = Some Gone)
  /\ (proc st = Running \/ proc st = Exited 1)
  /\ (proc st = Exited 1 ->
      received st = 2%nat /\ forall ls', run ls' st = st)
  /\ (handler st = Some AwaitFirst ->
      forall s, let st' := run [Deliver s; Handler; Handler] st in
                stop_closes st' = 1%nat /\ received st' = 1%nat
                /\ proc st' = Running /\ handler st' = Some AwaitSecond)
  /\ (handler st = Some AwaitSecond ->
      forall s, let st' := run [Deliver s; Handler; Handler] st in
                proc st' = Exited 1 /\ stop_closes st' = 1%nat
                /\ work st' = work st).
Proof.
  intros st.
  pose proof (armed_run ls _ armed_setup) as [[ch Hch] H]. fold st in Hch, H.
  destruct (handler st) as [[| | | |]|] eqn:Hh; try contradiction;
    destruct H as (Hr & Hc & Hp); rewrite Hr, Hc, Hp.
  all: split; [lia|].
  all: split; [split; [intros; split; [lia | discriminate]
                      | intros [? ?]; first [reflexivity | lia | congruence]]|].
  all: split; [split; [discriminate || reflexivity | discriminate || reflexivity]|].
  all: split; [first [left; reflexivity | right; reflexivity]|].
  all: split; [first [discriminate
                     | intros _; split; [reflexivity
                                        | intros ls'; apply (exited_is_final ls' st 1 Hp)]]|].
  all: split; try discriminate.
  - (* waiting for the first signal *)
    intros _ s st'. subst st'.
    destruct (signal_is_taken s st ch Hp Hch) as (x & ch' & Hch1 & Hh1 & Hr1 & Hc1 & Hp1).
    change (run [Deliver s; Handler; Handler] st)
      with (step Handler (step Handler (step (Deliver s) st))).
    rewrite Hh, Hr, Hc in *.
    destruct (step (Deliver s) st) as [p o sh h sc r w]; simpl in *; subst.
    repeat split.
  - (* draining: waiting for the second signal *)
    intros _ s st'. subst st'.
    destruct (signal_is_taken s st ch Hp Hch) as (x & ch' & Hch1 & Hh1 & Hr1 & Hc1 & Hp1).
    assert (Hw : work (step (Deliver s) st) = work st).
    { unfold step, deliver. rewrite Hp, Hch.
      destruct (try_send s ch); reflexivity. }
    change (run [Deliver s; Handler; Handler] st)
      with (step Handler (step Handler (step (Deliver s) st))).
    rewrite Hh, Hr, Hc in *.
    destruct (step (Deliver s) st) as [p o sh h sc r w]; simpl in *; subst.
    repeat split.
Qed.

(** A second call of [SetupSignalHandler] closes the closed guard channel
    again, which panics. *)
Lemma SetupSignalHandler_twice :
  proc (SetupSignalHandler (SetupSignalHandler initial)) = Panicked.
Proof. reflexivity. Qed.

(** One execution in full: the first signal closes [stop], shutdown work
    starts, the second signal ends the process with status 1 and the
    work that was still to come does not run. *)
Example two_signals :
  let st := run [Deliver SIGTERM; Handler; Handler; Other; Other;
                 Deliver SIGINT; Handler; Handler; Other; Other; Other]
                (SetupSignalHandler initial) in
  proc st = Exited 1 /\ stop_closes st = 1%nat /\ work st = 2%nat.
Proof. repeat split. Qed.

End Signals.

(** ** The audit pipeline *)

Section Audit.

Import Analytics.

Variable Marshal : AnalyticsRecord -> option (list Z).

(** *** RecordHit *)

(** A send on the closed channel panics; this is what a [RecordHit] that
    read the flag before [Stop] set it runs into. *)
Lemma RecordHit_closed (r : Analytics) (record : AnalyticsRecord) :
  shouldStop r <= 0 -> closed (recordsChan r) = true ->
  RecordHit r record = Panics.
Proof.
  intros Hs Hc. unfold RecordHit, send.
  destruct (Z.ltb_spec 0 (shouldStop r)); [lia|]. rewrite Hc. reflexivity.
Qed.


(** *** The worker *)

(** X14: a worker's buffer that is below its capacity is still below it
    after any iteration of the loop, whatever the select yields: the
    buffer is flushed the moment it is full, so it never grows past
    [workerBufferSize]. *)
Lemma worker_buffer_below_capacity (r : Analytics) (since now : Z)
      (sel : selected) (w : Worker) :
  1 <= workerBufferSize r ->
  Z.of_nat (List.length (recordsBuffer w)) < workerBufferSize r ->
  Z.of_nat (List.length (recordsBuffer (fst (worker_iter Marshal r since now sel w))))
  < workerBufferSize r.
Proof.
  intros Hcap Hlen. unfold worker_iter.
  destruct sel as [record| |]; [|exact Hlen|].
  - set (b := match Marshal record with
              | Some encoded => recordsBuffer w ++ [encoded]
              | None => recordsBuffer w
              end).
    assert (Hb : Z.of_nat (List.length b) <= workerBufferSize r).
    { subst b. destruct (Marshal record);
        [rewrite List.length_app; simpl|]; lia. }
    destruct (Z.eqb_spec (Z.of_nat (List.length b)) (workerBufferSize r)) as [He|He];
      destruct (Nat.ltb_spec 0 (List.length b)) as [Hl|Hl]; simpl; try lia.
    destruct (_ <=? _); simpl; lia.
  - destruct (Nat.ltb_spec 0 (List.length (recordsBuffer w))); simpl; lia.
Qed.

(** C9: the pool has N workers, each starting with an empty buffer of
    its own whose capacity is the total capacity divided by N, and a
    worker whose buffer reaches that capacity with the record it has
    just encoded hands the whole buffer, this record included and in
    order, to the sink and starts again from an empty buffer. *)
Theorem worker_flushes_at_capacity (options : AnalyticsOptions) (since now start : Z)
        (w : Worker) (record : AnalyticsRecord) (encoded : list Z) :
  1 <= PoolSize options < 2 ^ 63 ->
  Marshal record = Some encoded ->
  Z.of_nat (List.length (recordsBuffer w ++ [encoded]))
  = RecordsBufferSize options / PoolSize options ->
  exists r : Analytics,
    NewAnalytics options = Some r
    /\ workerBufferSize r = RecordsBufferSize options / PoolSize options
    /\ workers (Start start (fresh r))
       = repeat {| recordsBuffer := []; lastSentTS := start; exited := false |}
                (Z.to_nat (PoolSize options))
    /\ worker_iter Marshal r since now (Received record) w
       = ({| recordsBuffer := []; lastSentTS := now; exited := false |},
          [recordsBuffer w ++ [encoded]]).
Proof.
  intros Hps Hm Hlen.
  assert (Hu : uint64 (PoolSize options) = PoolSize options).
  { unfold uint64. apply Z.mod_small. lia. }
  unfold NewAnalytics. rewrite Hu.
  destruct (Z.eqb_spec (PoolSize options) 0) as [H0|H0]; [lia|].
  eexists. split; [reflexivity|]. simpl.
  split; [reflexivity|]. split; [reflexivity|].
  unfold worker_iter; simpl. rewrite Hm, Hlen, Z.eqb_refl.
  rewrite List.length_app; simpl.
  replace (0 <? List.length (recordsBuffer w) + 1)%nat with true
    by (symmetry; apply Nat.ltb_lt; lia).
  reflexivity.
Qed.

End Audit.

Lemma worker_flushes_at_capacity_witness :
  1 <= Analytics.PoolSize Examples.two_workers < 2 ^ 63
  /\ Examples.encode Examples.a_record = Some [2]
  /\ exists r : Analytics.Analytics,
       Analytics.NewAnalytics Examples.two_workers = Some r
       /\ Analytics.workerBufferSize r
          = Analytics.RecordsBufferSize Examples.two_workers
            / Analytics.PoolSize Examples.two_workers
       /\ Analytics.workers (Analytics.Start 0 (Analytics.fresh r))
          = repeat (Analytics.MkWorker [] 0 false)
                   (Z.to_nat (Analytics.PoolSize Examples.two_workers))
       /\ Analytics.worker_iter Examples.encode r 5 6
            (Analytics.Received Examples.a_record) Examples.half_full
          = (Analytics.MkWorker [] 6 false,
             [Analytics.recordsBuffer Examples.half_full ++ [[2]]]).
Proof.
  split; [simpl; lia|]. split; [reflexivity|].
  apply (worker_flushes_at_capacity Examples.encode Examples.two_workers 5 6 0
           Examples.half_full Examples.a_record [2]);
    [simpl; lia | reflexivity | reflexivity].
Defined.


(** ** Start, and the Stop it spawns *)

Section SelfStop.

Import Analytics.

Variable Marshal : AnalyticsRecord -> option (list Z).

Lemma stopping_Start (options : AnalyticsOptions) (r : Analytics) (now : Z) :
  NewAnalytics options = Some r -> stopping (Start now (fresh r)).
Proof.
  unfold NewAnalytics. destruct (_ =? 0); [discriminate|].
  intros [= <-]. split; [reflexivity|]. exists StopSwap. repeat split.
Qed.

(** A worker touches neither the flag nor the goroutines running [Stop],
    and it does not close the channel. *)
Lemma worker_step_frame (i : nat) (since now : Z) (timeout : bool) (s : System) :
  panicked (worker_step Marshal i since now timeout s) = panicked s
  /\ stoppers (worker_step Marshal i since now timeout s) = stoppers s
  /\ shouldStop (self (worker_step Marshal i since now timeout s)) = shouldStop (self s)
  /\ closed (recordsChan (self (worker_step Marshal i since now timeout s)))
     = closed (recordsChan (self s)).
Proof.
  unfold worker_step.
  destruct (workers s !! i) as [w|]; [|repeat split].
  destruct (exited w); [repeat split|].
  assert (Hrecv : forall sel c, receive (recordsChan (self s)) = Some (sel, c) ->
                                closed c = closed (recordsChan (self s))).
  { unfold receive. intros sel c.
    destruct (buf (recordsChan (self s))); [destruct (closed _) eqn:E|];
      intros [= <- <-]; simpl; congruence. }
  destruct timeout.
  - destruct (worker_iter Marshal (self s) since now TimedOut w) as [w' out].
    destruct (exited w'); repeat split.
  - destruct (receive (recordsChan (self s))) as [[sel c]|] eqn:E; [|repeat split].
    specialize (Hrecv sel c eq_refl).
    destruct (worker_iter Marshal (self s) since now sel w) as [w' out].
    destruct (exited w'); simpl; repeat split; exact Hrecv.
Qed.

Lemma with_self_self (s : System) : with_self s (self s) = s.
Proof. destruct s; reflexivity. Qed.

Lemma stopping_step (l : label) (s : System) : stopping s -> stopping (step Marshal l s).
Proof.
  intros (Hp & p & Hs & Hf & Hc). unfold step. rewrite Hp.
  destruct l as [i|i since now|i since now|record].
  - rewrite Hs. destruct i as [|i]; simpl; [|stopping_at p].
    destruct p; simpl.
    + stopping_at StopClose.
    + rewrite Hc. stopping_at StopWait.
    + destruct (poolWg (self s) =? 0); [stopping_at StopDone | stopping_at StopWait].
    + stopping_at StopDone.
  - destruct (worker_step_frame i since now false s) as (H1 & H2 & H3 & H4).
    split; [congruence|]. exists p. rewrite H2, H3, H4. auto.
  - destruct (worker_step_frame i since now true s) as (H1 & H2 & H3 & H4).
    split; [congruence|]. exists p. rewrite H2, H3, H4. auto.
  - unfold RecordHit, send.
    destruct (Z.ltb_spec 0 (shouldStop (self s))) as [H0|H0].
    + rewrite with_self_self. stopping_at p.
    + assert (p = StopSwap) by (destruct p; [reflexivity | lia | lia | lia]).
      subst p. rewrite Hc.
      destruct (_ <? _); stopping_at StopSwap.
Qed.


Lemma stopping_run (ls : list label) (s : System) : stopping s -> stopping (run Marshal ls s).
Proof.
  intros H. induction ls as [|l ls IH] using rev_ind; [exact H|].
  unfold run in *. rewrite fold_left_app. simpl. apply stopping_step, IH.
Qed.


End SelfStop.

Lemma AuthFunc_outcomes_witness :
  Auth.written Examples.fresh_context = None
  /\ exists (token : Auth.Token) (kid : string) (secret : Auth.Secret),
       Auth.bearer Examples.signed_request = Some token
       /\ Auth.header_kid token = Some kid
       /\ Examples.one_secret kid = Some secret
       /\ Auth.verifies token (Auth.Key secret) = true
       /\ Auth.KeyExpired Examples.a_time (Auth.Expires secret) = false
       /\ Auth.Keys
            (Auth.AuthFunc Examples.one_secret Examples.a_time Examples.signed_request
               Examples.fresh_context) !! Auth.UsernameKey
          = Some (Auth.Username secret)
       /\ Auth.next
            (Auth.AuthFunc Examples.one_secret Examples.a_time Examples.signed_request
               Examples.fresh_context) = true
       /\ Auth.aborted
            (Auth.AuthFunc Examples.one_secret Examples.a_time Examples.signed_request
               Examples.fresh_context) = Auth.aborted Examples.fresh_context.
Proof.
  split; [reflexivity|].
  apply (AuthFunc_outcomes Examples.one_secret Examples.a_time Examples.signed_request
           Examples.fresh_context); reflexivity.
Defined.

Example signed_request_binds_colin :
  Auth.Keys
    (Auth.AuthFunc Examples.one_secret Examples.a_time Examples.signed_request
       Examples.fresh_context) !! "username"
  = Some "colin"%string.
Proof. reflexivity. Qed.



(** The record enqueued before the goroutine ran is still taken by the
    worker and reaches the sink when the closed channel makes the worker
    leave. *)
Example early_record_is_flushed :
  Analytics.sink
    (Analytics.run Examples.encode
       [Analytics.Hit Examples.a_record; Analytics.StopStep 0; Analytics.StopStep 0;
        Analytics.WorkerRecv 0 1 1; Analytics.WorkerRecv 0 2 2; Analytics.StopStep 0]
       (Analytics.Start 0 (Analytics.fresh Examples.small_pipeline)))
  = [[[2]]; []].
Proof. reflexivity. Qed.

(** ** The authorizer over a deny-overrides warden *)

Section Decision.

Import Authorization.

Variable Condition : Type.
Variable pattern_match : string -> string -> bool.
Variable fulfills : Condition -> option string -> Request -> bool.
Variable FindRequestCandidates : Request -> list (Policy Condition).

Local Abbreviation matches := (policy_matches Condition pattern_match fulfills).
Local Abbreviation scan := (DoPoliciesAllow Condition pattern_match fulfills).
Local Abbreviation Evaluate := (Evaluate Condition pattern_match fulfills FindRequestCandidates).
Local Abbreviation matching := (matching Condition pattern_match fulfills FindRequestCandidates).

(** The scan lets a request through exactly when some policy it has seen
    (or will see) matches and allows, and none of the remaining ones
    matches and denies. *)
Lemma DoPoliciesAllow_None (r : Request) (ps : list (Policy Condition)) (allowed : bool) :
  scan r ps allowed = None
  <-> (allowed = true
       \/ exists p, In p ps /\ matches p r = true /\ Effect p = AllowAccess)
      /\ ~ (exists p, In p ps /\ matches p r = true /\ Effect p = DenyAccess).
Proof.
  revert allowed. induction ps as [|p ps IH]; intros allowed; simpl.
  - destruct allowed; split.
    + intros _. split; [left; reflexivity | intros (p & [] & _)].
    + reflexivity.
    + discriminate.
    + intros [[H | (p & [] & _)] _]. discriminate.
  - destruct (matches p r) eqn:Hm; [destruct (Effect p) eqn:He|].
    + rewrite IH. split.
      * intros [_ Hno]. split; [right; exists p; auto|].
        intros (q & [<- | Hin] & Hq & Hd); [congruence|].
        apply Hno. exists q. auto.
      * intros [_ Hno]. split; [left; reflexivity|].
        intros (q & Hin & Hq & Hd). apply Hno. exists q. auto.
    + split; [discriminate|].
      intros [_ Hno]. exfalso. apply Hno. exists p. auto.
    + rewrite IH. split.
      * intros [Hyes Hno]. split.
        -- destruct Hyes as [H | (q & Hin & Hq & Ha)]; [left; exact H|].
           right. exists q. auto.
        -- intros (q & [<- | Hin] & Hq & Hd); [congruence|].
           apply Hno. exists q. auto.
      * intros [Hyes Hno]. split.
        -- destruct Hyes as [H | (q & [<- | Hin] & Hq & Ha)];
             [left; exact H | congruence | right; exists q; auto].
        -- intros (q & Hin & Hq & Hd). apply Hno. exists q. auto.
Qed.

Lemma Authorize_Allowed (IsAllowed : Request -> option string) (r : Request) :
  Allowed (Authorize IsAllowed r) = true <-> IsAllowed r = None.
Proof.
  unfold Authorize. destruct (IsAllowed r); simpl; split; congruence.
Qed.

Lemma Authorize_exclusive (IsAllowed : Request -> option string) (r : Request) :
  Denied (Authorize IsAllowed r) = negb (Allowed (Authorize IsAllowed r)).
Proof. unfold Authorize. destruct (IsAllowed r); reflexivity. Qed.

(** C1: the decision for a request is Allowed = false whenever an
    applicable policy matches it with effect deny, and whenever no
    applicable policy matches it with effect allow (in particular when no
    policy matches at all); it is Allowed = true exactly when at least one
    matching policy allows and none denies. *)
Theorem Evaluate_deny_overrides (r : Request) :
  ((exists p, matching DenyAccess r p) -> Allowed (Evaluate r) = false)
  /\ (~ (exists p, matching AllowAccess r p) -> Allowed (Evaluate r) = false)
  /\ (Allowed (Evaluate r) = true
      <-> (exists p, matching AllowAccess r p)
          /\ ~ (exists p, matching DenyAccess r p))
  /\ Denied (Evaluate r) = negb (Allowed (Evaluate r)).
Proof.
  assert (Hiff : Allowed (Evaluate r) = true
                 <-> (exists p, matching AllowAccess r p)
                     /\ ~ (exists p, matching DenyAccess r p)).
  { unfold Authorization.Evaluate. rewrite Authorize_Allowed.
    unfold warden_IsAllowed. rewrite DoPoliciesAllow_None.
    unfold Authorization.matching. split.
    - intros [[H | H] Hno]; [discriminate | split; assumption].
    - intros [H Hno]. split; [right; exact H | exact Hno]. }
  split; [|split; [|split; [exact Hiff | apply Authorize_exclusive]]].
  - intros Hd. apply not_true_is_false. intros E.
    apply Hiff in E. destruct E as [_ Hno]. contradiction.
  - intros Hn. apply not_true_is_false. intros E.
    apply Hiff in E. destruct E as [Hyes _]. contradiction.
Qed.

End Decision.

(** Allowed by a matching allow policy; denied although an allow policy
    matches, because a deny policy matches too; denied when nothing
    matches; denied when no policy applies to the subject. *)
Example decisions_for_colin :
  Authorization.Allowed (Examples.decide_for "colin" "read") = true
  /\ Authorization.Allowed (Examples.decide_for "colin" "delete") = false
  /\ Authorization.Reason (Examples.decide_for "colin" "delete")
     = "Request was forcefully denied"%string
  /\ Authorization.Allowed (Examples.decide_for "colin" "publish") = false
  /\ Authorization.Reason (Examples.decide_for "colin" "publish")
     = "Request was denied by default"%string
  /\ Authorization.Allowed (Examples.decide_for "someone" "read") = false.
Proof. repeat split. Qed.

(** ** The loader under arbitrary interleavings of messages and ticks *)

Section LoaderEvents.

Import Load.

Variable store : Type.
Variable store_Reload : store -> option string * store.

Implicit Type st : State store.

(** What the arrival of one value does, the listener's call and the
    receive of the queue loop taken together. *)
Lemma arrival_spec (complete : list func) (v : redis_value) (handled : bool)
      (reloaded : func) st :
  reloadQueue st = [] -> panicked st = false ->
  let st' := loader_step store_Reload complete (Arrives v handled reloaded) st in
  reloadQueue st' = []
  /\ requeue st'
     = requeue st ++ (if triggers (Arrives v handled reloaded) then [reloaded] else [])
  /\ panicked st' = false
  /\ l_store st' = l_store st
  /\ actions (trace st')
     = actions (trace st)
       ++ match v with
          | Message (Some n) =>
              if recognized n && handled then [Handled (Command n)] else []
          | _ => []
          end.
Proof.
  intros Hq Hp. unfold loader_step. rewrite Hp.
  destruct v as [|[n|]]; simpl.
  - unfold reloadQueue_recv. rewrite Hq, !app_nil_r. repeat split; assumption.
  - unfold handleRedisEvent.
    change (String.eqb (Command n) NoticePolicyChanged
            || String.eqb (Command n) NoticeSecretChanged) with (recognized n).
    destruct (recognized n); [destruct handled|];
      unfold reloadQueue_recv; simpl; rewrite Hq; simpl;
      rewrite ?actions_app; simpl; rewrite ?app_nil_r;
      repeat split; assumption.
  - unfold reloadQueue_recv, emit.
    cbn [trace reloadQueue requeue panicked l_store]. rewrite Hq.
    cbn [trace reloadQueue requeue panicked l_store]. rewrite actions_app.
    simpl. rewrite !app_nil_r. repeat split; assumption.
Qed.

Lemma loader_run_snoc (complete : list func) (es : list event) (e : event) st :
  loader_run store_Reload complete (es ++ [e]) st
  = loader_step store_Reload complete e (loader_run store_Reload complete es st).
Proof. unfold loader_run. rewrite fold_left_app. reflexivity. Qed.

Lemma loader_run_app (complete : list func) (es es' : list event) st :
  loader_run store_Reload complete (es ++ es') st
  = loader_run store_Reload complete es' (loader_run store_Reload complete es st).
Proof. unfold loader_run. apply fold_left_app. Qed.

Lemma count_snoc (f : event -> bool) (es : list event) (e : event) :
  count f (es ++ [e]) = (count f es + (if f e then 1 else 0))%nat.
Proof.
  unfold count. rewrite List.filter_app, List.length_app. simpl.
  destruct (f e); reflexivity.
Qed.

(** Whether a tick panics: only by calling a nil completion callback,
    and only when something was pending. *)
Lemma reloadLoop_tick_panicked (complete : list func) st :
  panicked (reloadLoop_tick store_Reload complete st)
  = match requeue st, complete with
    | _ :: _, None :: _ => true
    | _, _ => panicked st
    end.
Proof.
  unfold reloadLoop_tick, shouldReload.
  destruct (requeue st) as [|c cb] eqn:Hq; [reflexivity|].
  cbn [negb].
  set (st0 := {| reloadQueue := reloadQueue st; requeue := [];
                 l_store := l_store st; trace := trace st;
                 panicked := panicked st |}).
  destruct (DoReload_spec store store_Reload st0) as (_ & _ & _ & Hp1).
  destruct (run_callbacks_spec store (c :: cb) (DoReload store_Reload st0))
    as (_ & _ & _ & _ & Hp2).
  set (st2 := run_callbacks (c :: cb) (DoReload store_Reload st0)) in *.
  assert (Hp : panicked st2 = panicked st) by (rewrite Hp2, Hp1; reflexivity).
  destruct complete as [|[id|] rest]; simpl.
  - rewrite Hp. destruct (panicked st); simpl; congruence.
  - rewrite Hp. destruct (panicked st); simpl; congruence.
  - reflexivity.
Qed.

(** A tick reloads once when something is pending and not at all
    otherwise; the pending list is empty after it. *)
Lemma reloadLoop_tick_count (complete : list func) st :
  requeue (reloadLoop_tick store_Reload complete st) = []
  /\ reloadQueue (reloadLoop_tick store_Reload complete st) = reloadQueue st
  /\ reloads (trace (reloadLoop_tick store_Reload complete st))
     = (reloads (trace st) + match requeue st with [] => 0 | _ => 1 end)%nat.
Proof.
  destruct (requeue st) as [|c cb] eqn:Hq.
  - rewrite (reloadLoop_tick_idle store store_Reload complete st Hq).
    rewrite Hq, Nat.add_0_r. repeat split.
  - assert (Hne : requeue st <> []) by (rewrite Hq; discriminate).
    destruct (reloadLoop_tick_pending store store_Reload complete st Hne)
      as (Hr & Hq' & Ha).
    repeat split; try assumption.
    rewrite (one_more_reload _ _ _ _ Ha). lia.
Qed.

(** The accounting behind the debouncing: every reload, and a pending
    list that is not empty, is paid for by a notification of its own, and
    every reload by a tick of its own. *)
Lemma loader_run_accounting (complete : list func) (es : list event) st :
  quiet st ->
  let st' := loader_run store_Reload complete es st in
  reloadQueue st' = []
  /\ (reloads (trace st) <= reloads (trace st'))%nat
  /\ (reloads (trace st') + match requeue st' with [] => 0 | _ => 1 end
      <= reloads (trace st) + count triggers es)%nat
  /\ (reloads (trace st') <= reloads (trace st) + count is_tick es)%nat.
Proof.
  intros [Hq Hr]. induction es as [|e es IH] using rev_ind.
  - simpl. rewrite Hr. unfold count; simpl. repeat split; [assumption | lia | lia | lia].
  - cbv zeta in *. rewrite loader_run_snoc, !count_snoc.
    destruct IH as (Hq1 & Hlo & Htr & Htk).
    set (st1 := loader_run store_Reload complete es st) in *.
    unfold loader_step at 1 2 3 4 5.
    destruct (panicked st1) eqn:Hp.
    { repeat split; [assumption | lia | lia | lia]. }
    destruct e as [v handled reloaded|].
    + pose proof (arrival_spec complete v handled reloaded st1 Hq1 Hp) as H.
      unfold loader_step in H. rewrite Hp in H. cbv zeta in H.
      destruct H as (Hq2 & Hr2 & _ & _ & Ha2).
      assert (Hn : reloads (trace (reloadQueue_recv []
                     (handleRedisEvent v handled reloaded st1)))
                   = reloads (trace st1)).
      { rewrite <- reloads_actions, Ha2, reloads_app, reloads_actions.
        assert (Hz : reloads match v with
                             | Message (Some n) =>
                                 if recognized n && handled
                                 then [Handled (Command n)] else []
                             | _ => []
                             end = 0%nat).
        { destruct v as [|[n|]];
            [| destruct (recognized n && handled) |]; reflexivity. }
        rewrite Hz. lia. }
      rewrite Hn, Hr2. simpl is_tick. cbv iota.
      split; [exact Hq2|]. split; [lia|]. split; [|lia].
      destruct (triggers (Arrives v handled reloaded)).
      * destruct (requeue st1 ++ [reloaded]) eqn:E;
          [destruct (requeue st1); discriminate|].
        destruct (requeue st1); lia.
      * rewrite app_nil_r. lia.
    + destruct (reloadLoop_tick_count complete st1) as (Hr2 & Hq2 & Hn).
      rewrite Hn, Hr2, Hq2. simpl triggers. simpl is_tick. cbv iota.
      split; [exact Hq1|]. destruct (requeue st1); lia.
Qed.

Lemma count_none (f : event -> bool) (es : list event) :
  Forall (fun e => f e = false) es -> count f es = 0%nat.
Proof.
  unfold count. induction 1 as [|e es He _ IH]; [reflexivity|].
  simpl. rewrite He. exact IH.
Qed.

(** Ticks with nothing pending change nothing. *)
Lemma idle_ticks (complete : list func) (k : nat) st :
  requeue st = [] -> loader_run store_Reload complete (repeat Ticks k) st = st.
Proof.
  intros Hr. induction k as [|k IH]; [reflexivity|].
  simpl. unfold loader_step.
  rewrite (reloadLoop_tick_idle store store_Reload complete st Hr).
  destruct (panicked st); exact IH.
Qed.

(** A run of recognized notifications, each with its own callback. *)
Lemma arrivals_spec (complete : list func) (nfs : list (Notification * func)) st :
  Forall (fun nf => recognized (fst nf) = true) nfs ->
  reloadQueue st = [] -> panicked st = false ->
  let st' := loader_run store_Reload complete
               (map (fun nf => Arrives (Message (Some (fst nf))) false (snd nf)) nfs)
               st in
  reloadQueue st' = []
  /\ requeue st' = requeue st ++ map snd nfs
  /\ panicked st' = false
  /\ actions (trace st') = actions (trace st).
Proof.
  intros Hall. revert st.
  induction Hall as [|[n f] nfs Hn _ IH]; intros st Hq Hp.
  - simpl. rewrite app_nil_r. repeat split; assumption.
  - pose proof (arrival_spec complete (Message (Some n)) false f st Hq Hp) as H.
    cbv zeta in H. destruct H as (Hq1 & Hr1 & Hp1 & _ & Ha1).
    simpl in Hn. simpl triggers in Hr1. rewrite Hn in Hr1.
    rewrite Hn in Ha1. cbn [andb] in Ha1. rewrite app_nil_r in Ha1.
    set (st1 := loader_step store_Reload complete
                  (Arrives (Message (Some n)) false f) st) in *.
    destruct (IH st1 Hq1 Hp1) as (Hq2 & Hr2 & Hp2 & Ha2).
    cbv zeta.
    change (loader_run store_Reload complete (map ?F ((n, f) :: nfs)) st)
      with (loader_run store_Reload complete (map F nfs) st1).
    rewrite Hr2, Hr1, Ha2, Ha1, <- app_assoc. repeat split; assumption.
Qed.

(** The trace of a tick that found something pending starts with the
    trace of the reload, and the store is the reloaded one. *)
Lemma reloadLoop_tick_extends (complete : list func) st :
  requeue st <> [] ->
  exists t,
    trace (reloadLoop_tick store_Reload complete st)
    = trace (DoReload store_Reload st) ++ t
    /\ l_store (reloadLoop_tick store_Reload complete st)
       = l_store (DoReload store_Reload st).
Proof.
  intros Hne. unfold reloadLoop_tick, shouldReload.
  destruct (requeue st) as [|c cb] eqn:Hq; [congruence|].
  cbn [negb].
  set (st0 := {| reloadQueue := reloadQueue st; requeue := [];
                 l_store := l_store st; trace := trace st;
                 panicked := panicked st |}).
  assert (H0 : trace (DoReload store_Reload st0) = trace (DoReload store_Reload st)
               /\ l_store (DoReload store_Reload st0) = l_store (DoReload store_Reload st)).
  { unfold DoReload. subst st0. cbn [l_store trace].
    destruct (store_Reload (l_store st)) as [[e|] s]; split; reflexivity. }
  destruct H0 as [Ht0 Hs0].
  destruct (run_callbacks_spec store (c :: cb) (DoReload store_Reload st0))
    as (Ht2 & _ & _ & Hs2 & _).
  set (st2 := run_callbacks (c :: cb) (DoReload store_Reload st0)) in *.
  assert (H3 : exists t, trace (call_first complete st2) = trace st2 ++ t
                         /\ l_store (call_first complete st2) = l_store st2).
  { destruct complete as [|[id|] rest]; simpl.
    - exists []. rewrite app_nil_r. split; reflexivity.
    - exists [Call id]. split; reflexivity.
    - exists []. rewrite app_nil_r. split; reflexivity. }
  destruct H3 as (t3 & Ht3 & Hs3).
  destruct (panicked (call_first complete st2)).
  - exists (map Call (non_nil (c :: cb)) ++ t3).
    rewrite Ht3, Ht2, Hs3, Hs2, Ht0, Hs0, <- app_assoc. split; reflexivity.
  - exists (map Call (non_nil (c :: cb)) ++ t3
            ++ [Log Info "reload: cycle completed in %v"]).
    unfold emit. cbn [trace l_store].
    rewrite Ht3, Ht2, Hs3, Hs2, Ht0, Hs0, <- !app_assoc. split; reflexivity.
Qed.

(** X3: over any interleaving of arriving values and ticks that starts
    with nothing pending, the store is reloaded at most once per tick and
    at most once per notification with a known command: never more often
    than the ticker fires, and never more often than there were changes
    to pick up. *)
Theorem reloads_within_ticks_and_notifications
        (complete : list func) (es : list event) st :
  quiet st ->
  (reloads (trace st)
   <= reloads (trace (loader_run store_Reload complete es st)))%nat
  /\ (reloads (trace (loader_run store_Reload complete es st))
      <= reloads (trace st) + Nat.min (count is_tick es) (count triggers es))%nat.
Proof.
  intros Hq.
  destruct (loader_run_accounting complete es st Hq) as (_ & Hlo & Htr & Htk).
  cbv zeta in *. split; [exact Hlo|].
  apply Nat.min_case_strong; intros _; [exact Htk|].
  destruct (requeue (loader_run store_Reload complete es st)); lia.
Qed.

(** X4: the callbacks that come with a burst of notifications are kept in
    the order of arrival; nothing is reloaded and none of them runs
    before the next tick, which reloads the store once and then runs the
    callbacks that are not nil, each once, in that order, and the ticks
    after it do nothing. *)
Theorem callbacks_run_in_arrival_order
        (nfs : list (Notification * func)) (k : nat) st :
  quiet st -> panicked st = false ->
  Forall (fun nf => recognized (fst nf) = true) nfs -> nfs <> [] ->
  let es := map (fun nf => Arrives (Message (Some (fst nf))) false (snd nf)) nfs in
  requeue (loader_run store_Reload [] es st) = map snd nfs
  /\ actions (trace (loader_run store_Reload [] es st)) = actions (trace st)
  /\ actions (trace (loader_run store_Reload [] (es ++ repeat Ticks (S k)) st))
     = actions (trace st) ++ StoreReload :: map Call (non_nil (map snd nfs))
  /\ requeue (loader_run store_Reload [] (es ++ repeat Ticks (S k)) st) = []
  /\ panicked (loader_run store_Reload [] (es ++ repeat Ticks (S k)) st) = false.
Proof.
  intros [Hq Hr] Hp Hall Hne es.
  destruct (arrivals_spec [] nfs st Hall Hq Hp) as (Hq1 & Hr1 & Hp1 & Ha1).
  fold es in Hq1, Hr1, Hp1, Ha1. rewrite Hr in Hr1. simpl in Hr1.
  split; [exact Hr1|]. split; [exact Ha1|].
  rewrite loader_run_app.
  set (st1 := loader_run store_Reload [] es st) in *.
  cbn [repeat loader_run fold_left]. unfold loader_step at 2 4 6. rewrite Hp1.
  assert (Hne1 : requeue st1 <> []).
  { rewrite Hr1. destruct nfs; [congruence | discriminate]. }
  destruct (reloadLoop_tick_pending store store_Reload [] st1 Hne1) as (Hr2 & _ & Ha2).
  pose proof (reloadLoop_tick_panicked [] st1) as Hp2.
  fold (loader_run store_Reload [] (repeat Ticks k)
          (reloadLoop_tick store_Reload [] st1)).
  rewrite (idle_ticks [] k _ Hr2).
  split; [|split; [exact Hr2|]].
  - rewrite Ha2, Ha1, Hr1. simpl. rewrite app_nil_r. reflexivity.
  - rewrite Hp2. destruct (requeue st1); exact Hp1.
Qed.

(** X5: a reload that fails is not tried again.  When [Reload] returns
    an error at a tick, the error is logged (as is, after it, the line
    that reports success), the pending list is emptied and its callbacks
    run all the same, and the tick after it finds nothing to do: the
    store stays as the failed reload left it until the next notification. *)
Theorem failed_reload_is_not_retried
        (complete : list func) st (e : string) (s' : store) :
  requeue st <> [] ->
  store_Reload (l_store st) = (Some e, s') ->
  In (Log Error ("faild to refresh target storage: " ++ e)%string)
     (trace (reloadLoop_tick store_Reload complete st))
  /\ In (Log Debug "refresh target storage succ")
        (trace (reloadLoop_tick store_Reload complete st))
  /\ l_store (reloadLoop_tick store_Reload complete st) = s'
  /\ requeue (reloadLoop_tick store_Reload complete st) = []
  /\ actions (trace (reloadLoop_tick store_Reload complete st))
     = actions (trace st)
       ++ StoreReload :: map Call (non_nil (requeue st))
       ++ map Call (non_nil (firstn 1 complete))
  /\ reloadLoop_tick store_Reload complete
       (reloadLoop_tick store_Reload complete st)
     = reloadLoop_tick store_Reload complete st.
Proof.
  intros Hne Herr.
  destruct (reloadLoop_tick_extends complete st Hne) as (t & Ht & Hs).
  destruct (reloadLoop_tick_pending store store_Reload complete st Hne)
    as (Hr & _ & Ha).
  assert (Hd : trace (DoReload store_Reload st)
               = trace st
                 ++ [StoreReload;
                     Log Error ("faild to refresh target storage: " ++ e)%string;
                     Log Debug "refresh target storage succ"]
               /\ l_store (DoReload store_Reload st) = s').
  { unfold DoReload. rewrite Herr. unfold emit. cbn [trace l_store].
    rewrite <- !app_assoc. split; reflexivity. }
  destruct Hd as [Hd Hs'].
  rewrite Ht, Hd, Hs, Hs'.
  split; [rewrite !in_app_iff; simpl; tauto|].
  split; [rewrite !in_app_iff; simpl; tauto|].
  split; [reflexivity|]. split; [exact Hr|]. split.
  - rewrite <- Hd, <- Ht. exact Ha.
  - apply reloadLoop_tick_idle. exact Hr.
Qed.

(** X6: nil callbacks in the pending list never make a tick panic,
    whatever the list holds: with no completion callback, or with one that
    is not nil, a tick panics only if something had panicked before.  The
    completion callback is called unguarded: when it is nil, a tick with
    something pending panics, and a tick with nothing pending returns
    before reaching it. *)
Theorem nil_callbacks_are_skipped (rest : list func) st :
  panicked (reloadLoop_tick store_Reload [] st) = panicked st
  /\ (forall id : nat,
        panicked (reloadLoop_tick store_Reload (Some id :: rest) st) = panicked st)
  /\ (match requeue st with
      | [] => reloadLoop_tick store_Reload (None :: rest) st = st
      | _ :: _ =>
          panicked (reloadLoop_tick store_Reload (None :: rest) st) = true
          /\ reloads (trace (reloadLoop_tick store_Reload (None :: rest) st))
             = S (reloads (trace st))
      end).
Proof.
  split; [|split].
  - rewrite reloadLoop_tick_panicked. destruct (requeue st); reflexivity.
  - intros id. rewrite reloadLoop_tick_panicked. destruct (requeue st); reflexivity.
  - destruct (requeue st) as [|c cb] eqn:Hq.
    + apply reloadLoop_tick_idle. exact Hq.
    + split.
      * rewrite reloadLoop_tick_panicked, Hq. reflexivity.
      * destruct (reloadLoop_tick_count (None :: rest) st) as (_ & _ & Hn).
        rewrite Hn, Hq. lia.
Qed.

(** X7: [Start] reloads the store once, and after it nothing does until
    a notification with a known command arrives: values that are not
    messages, messages that do not decode and notifications with an
    unknown command never cause a reload, however many ticks go by, and
    whether they arrive before or after the reload of [Start]. *)
Theorem Start_reloads_once_when_idle
        (complete : list func) (es1 es2 : list event) st :
  quiet st ->
  Forall (fun e => triggers e = false) (es1 ++ es2) ->
  reloads
    (trace (loader_run store_Reload complete es2
              (Start store_Reload (loader_run store_Reload complete es1 st))))
  = S (reloads (trace st)).
Proof.
  intros Hq Hall. apply Forall_app in Hall. destruct Hall as [H1 H2].
  destruct (loader_run_accounting complete es1 st Hq) as (Hq1 & Hlo1 & Htr1 & _).
  cbv zeta in *. rewrite (count_none _ _ H1) in Htr1.
  set (st1 := loader_run store_Reload complete es1 st) in *.
  assert (Hr1 : requeue st1 = []) by (destruct (requeue st1); [reflexivity | lia]).
  assert (Hn1 : reloads (trace st1) = reloads (trace st)) by lia.
  destruct (DoReload_spec store store_Reload st1) as (Ha & Hr & Hq' & _).
  assert (Hquiet : quiet (Start store_Reload st1)).
  { unfold Start. split; congruence. }
  assert (Hn2 : reloads (trace (Start store_Reload st1)) = S (reloads (trace st))).
  { unfold Start. rewrite <- reloads_actions, Ha, reloads_app, reloads_actions, Hn1.
    change (reloads [StoreReload]) with 1%nat. lia. }
  destruct (loader_run_accounting complete es2 _ Hquiet) as (_ & Hlo2 & Htr2 & _).
  cbv zeta in *. rewrite (count_none _ _ H2) in Htr2.
  destruct (requeue (loader_run store_Reload complete es2 (Start store_Reload st1))); lia.
Qed.

End LoaderEvents.

(** ** The notifier, and the shape of a signature *)

Section Notifying.

Import Load.

Variable cluster : Type.
Variable Publish : cluster -> string -> string -> option storage_error * cluster.
Variable other : Type.
Variable json_Marshal : @any other -> string + string.

(** Signing again changes nothing, so what [Sign] produced matches. *)
Lemma Sign_idempotent (n : Notification) : Sign (Sign n) = Sign n.
Proof. reflexivity. Qed.

Lemma Sign_matches (n : Notification) : signature_matches (Sign n) = true.
Proof.
  unfold signature_matches. rewrite Sign_idempotent. apply String.eqb_refl.
Qed.

(** X1: [Notify] signs a notification itself before encoding it, so what
    it publishes carries the signature that belongs to its command and
    payload, and whatever signature and algorithm the caller had put in
    are irrelevant.  It returns true exactly when the signed notification
    could be encoded and the cluster accepted the encoding on the
    notifier's channel; when the encoding fails nothing is published. *)
Theorem Notify_publishes_signed (r : RedisNotifier cluster) (n : Notification) :
  (forall (sig : string) (algo : crypto_Hash),
      Notify Publish json_Marshal r
        (IsNotification (MkNotification (Command n) (Payload n) sig algo))
      = Notify Publish json_Marshal r (IsNotification n))
  /\ signature_matches (Sign n) = true
  /\ (fst (fst (Notify Publish json_Marshal r (IsNotification n))) = true
      <-> exists toSend : string,
            json_Marshal (IsNotification (Sign n)) = inr toSend
            /\ fst (Publish (store r) (channel r) toSend) = None)
  /\ (forall err : string,
        json_Marshal (IsNotification (Sign n)) = inl err ->
        fst (Notify Publish json_Marshal r (IsNotification n)) = (false, r))
  /\ (forall toSend : string,
        json_Marshal (IsNotification (Sign n)) = inr toSend ->
        snd (fst (Notify Publish json_Marshal r (IsNotification n)))
        = {| store := snd (Publish (store r) (channel r) toSend);
             channel := channel r |}).
Proof.
  split; [intros sig algo; reflexivity|].
  split; [apply Sign_matches|].
  unfold Notify.
  destruct (json_Marshal (IsNotification (Sign n))) as [err|toSend] eqn:Hm.
  - split; [|split].
    + simpl. split; [discriminate | intros (t & Ht & _); discriminate].
    + intros err' _. reflexivity.
    + intros t Ht. discriminate.
  - destruct (Publish (store r) (channel r) toSend) as [[[|msg]|] cl] eqn:Hpub;
      simpl; (split; [|split]);
      try (intros err' Herr; discriminate);
      try (intros t [= <-]; rewrite Hpub; reflexivity).
    + split; [discriminate | intros (t & [= <-] & Ht); rewrite Hpub in Ht; discriminate].
    + split; [discriminate | intros (t & [= <-] & Ht); rewrite Hpub in Ht; discriminate].
    + split; [intros _; exists toSend; rewrite Hpub; auto | reflexivity].
Qed.

Lemma digit_is_hex (v : Z) : 0 <= v < 16 -> Hex.is_hex_digit (Hex.digit v) = true.
Proof.
  intros Hv.
  assert (H : exists k : nat, (k < 16)%nat /\ v = Z.of_nat k)
    by (exists (Z.to_nat v); lia).
  destruct H as (k & Hk & ->).
  do 16 (destruct k as [|k]; [reflexivity|]). lia.
Qed.

Lemma EncodeToString_is_hex (l : list Z) :
  Forall (fun v => 0 <= v < 256) l ->
  Forall (fun c => Hex.is_hex_digit c = true)
         (list_ascii_of_string (Hex.EncodeToString l)).
Proof.
  induction 1 as [|v l Hv _ IH]; simpl; [constructor|].
  constructor; [|constructor; [|exact IH]].
  - apply digit_is_hex. rewrite Z.shiftr_div_pow2 by lia.
    split; [apply Z.div_pos; lia | apply Z.div_lt_upper_bound; lia].
  - apply digit_is_hex. change 0x0f with (Z.ones 4).
    rewrite Z.land_ones by lia. apply Z.mod_pos_bound. lia.
Qed.

Lemma putUint32_bytes (x : Z) : Forall (fun v => 0 <= v < 256) (SHA256.putUint32 x).
Proof.
  unfold SHA256.putUint32. change 0xff with (Z.ones 8).
  repeat constructor; rewrite Z.land_ones by lia; apply Z.mod_pos_bound; lia.
Qed.

Lemma Sum256_bytes (data : list Z) : Forall (fun v => 0 <= v < 256) (SHA256.Sum256 data).
Proof.
  unfold SHA256.Sum256.
  set (d := SHA256.blockGeneric _ _ _).
  repeat (apply Forall_app; split); apply putUint32_bytes.
Qed.

(** X2: whatever the command and the payload, the signature that [Sign]
    sets is a string of exactly 64 characters, each of them one of
    0123456789abcdef. *)
Theorem Sign_signature_is_hex (n : Notification) :
  String.length (Signature (Sign n)) = 64%nat
  /\ Forall (fun c => Hex.is_hex_digit c = true)
            (list_ascii_of_string (Signature (Sign n))).
Proof.
  unfold Sign; cbn [Signature]. split.
  - rewrite EncodeToString_length. reflexivity.
  - apply EncodeToString_is_hex, Sum256_bytes.
Qed.

End Notifying.

(** ** Signals sent and signals taken *)

Section SignalAccounting.

Import Server.

Lemma sends_snoc (ls : list label) (l : label) :
  sends (ls ++ [l]) = (sends ls + (if is_send l then 1 else 0))%nat.
Proof.
  unfold sends. rewrite List.filter_app, List.length_app. simpl.
  destruct (is_send l); reflexivity.
Qed.

Lemma try_send_spec (s : Signal) (ch : list Signal) :
  try_send s ch = if (List.length ch <? 2)%nat then Some (ch ++ [s]) else None.
Proof. reflexivity. Qed.

Lemma accounted_step (n : nat) (l : label) (st : State) :
  accounted n st -> accounted (n + (if is_send l then 1 else 0)) (step l st).
Proof.
  intros (ch & Hch & Hlen & Hn). unfold step.
  destruct (proc st); try (exists ch; repeat split; [assumption | lia | lia]).
  destruct l as [s| | |]; simpl.
  - unfold deliver. rewrite Hch, try_send_spec.
    destruct (Nat.ltb_spec (List.length ch) 2).
    + exists (ch ++ [s]). simpl. rewrite List.length_app. simpl.
      repeat split; lia.
    + exists ch. repeat split; [assumption | lia | lia].
  - unfold RequestShutdown. rewrite Hch, try_send_spec.
    destruct (Nat.ltb_spec (List.length ch) 2).
    + exists (ch ++ [SIGINT]). simpl. rewrite List.length_app. simpl.
      repeat split; lia.
    + exists ch. simpl. repeat split; [assumption | lia | lia].
  - unfold handler_step.
    destruct (handler st) as [[| | | |]|]; rewrite ?Hch.
    1, 3: destruct ch as [|x ch];
      [exists []; repeat split; [assumption | simpl; lia | simpl in *; lia]
      | exists ch; simpl in *; repeat split; lia].
    all: exists ch; simpl; repeat split; first [assumption | lia].
  - exists ch. simpl. repeat split; [assumption | lia | lia].
Qed.

Lemma accounted_run (ls : list label) :
  accounted (sends ls) (run ls (SetupSignalHandler initial)).
Proof.
  induction ls as [|l ls IH] using rev_ind.
  - exists []. simpl. repeat split; lia.
  - rewrite run_snoc, sends_snoc. apply accounted_step, IH.
Qed.

(** X8: after [SetupSignalHandler], in every execution, the buffer of
    [shutdownHandler] never holds more than two signals, and each signal
    the goroutine has taken or that waits in the buffer was sent by the
    operating system or by [RequestShutdown].  So [stop] is closed only
    after at least one signal was sent and the process exits only after
    at least two.  [RequestShutdown] reports false exactly when two
    signals are waiting, and before [SetupSignalHandler] it reports false
    and does nothing. *)
Theorem signals_are_accounted_for (ls : list label) :
  let st := run ls (SetupSignalHandler initial) in
  (exists ch : list Signal,
      shutdownHandler st = Some ch
      /\ (List.length ch <= 2)%nat
      /\ (received st + List.length ch <= sends ls)%nat
      /\ fst (RequestShutdown st) = (List.length ch <? 2)%nat)
  /\ (stop_closed st = true -> (1 <= sends ls)%nat)
  /\ (proc st = Exited 1 -> (2 <= sends ls)%nat)
  /\ RequestShutdown initial = (false, initial).
Proof.
  intros st.
  destruct (accounted_run ls) as (ch & Hch & Hlen & Hn). fold st in Hch, Hn.
  pose proof (armed_run ls _ armed_setup) as [_ H]. fold st in H.
  split; [|split; [|split; [|reflexivity]]].
  - exists ch. repeat split; try assumption.
    unfold RequestShutdown. rewrite Hch, try_send_spec.
    destruct (List.length ch <? 2)%nat; reflexivity.
  - unfold stop_closed. intros Hc. apply Nat.ltb_lt in Hc.
    destruct (handler st) as [[| | | |]|]; try contradiction;
      destruct H as (Hr & Hs & _); lia.
  - intros Hp.
    destruct (handler st) as [[| | | |]|]; try contradiction;
      destruct H as (Hr & _ & Hp'); try congruence; lia.
Qed.

End SignalAccounting.

(** ** Expiry over time, and what the strategy leaves alone *)

Section Expiry.

Import Auth.


Variable get : string -> option Secret.

(** X10: the strategy touches nothing but the identity slot and its own
    verdict.  Every key of the request context other than the username key
    keeps its value; when the strategy aborts, no key changes at all and
    the request is not passed on by it; when it passes the request on, it
    neither aborts nor writes a response.  On a request that was neither
    aborted nor passed on before, it does exactly one of the two. *)
Theorem AuthFunc_frame (now : Time) (req : Request) (c : Context) :
  (forall k : string,
      k <> UsernameKey -> Keys (AuthFunc get now req c) !! k = Keys c !! k)
  /\ ((aborted (AuthFunc get now req c) = true
       /\ Keys (AuthFunc get now req c) = Keys c
       /\ next (AuthFunc get now req c) = next c
       /\ exists e m, written (AuthFunc get now req c) = Some (e, m))
      \/ (next (AuthFunc get now req c) = true
          /\ aborted (AuthFunc get now req c) = aborted c
          /\ written (AuthFunc get now req c) = written c
          /\ exists u, Keys (AuthFunc get now req c) = <[UsernameKey := u]> (Keys c)))
  /\ (aborted c = false -> next c = false ->
      aborted (AuthFunc get now req c) = negb (next (AuthFunc get now req c))).
Proof.
  destruct (AuthFunc_cases get now req c)
    as [(_ & H) | [(err & _ & _ & H) | [(s & _ & _ & _ & H) | H]]].
  1, 2, 3: rewrite H; simpl; split; [reflexivity|];
    (split; [left; repeat split; eauto | intros _ ->; reflexivity]).
  destruct H as (t & k & s & _ & _ & _ & _ & _ & _ & _ & _ & H).
  rewrite H; simpl. split; [|split].
  - intros k' Hk. apply lookup_insert_ne. congruence.
  - right. repeat split. eauto.
  - intros ->. reflexivity.
Qed.

End Expiry.

(** ** The authorize handler behind the strategy *)

Section Handler.

Import Authorization.

Variable IsAllowed : Request -> option string.

(** X11: the handler asks the warden about the authenticated user, not
    about a user the client names.  The request the warden sees is the
    bound one with the username that the request context holds (the empty
    string when it holds none) under the username key of its context and
    every other field and key as bound; a username that the client sent in
    the context of its request is overwritten and has no influence on the
    decision. *)
Theorem handle_overwrites_username (keys : gmap string string) (r : Request) :
  (exists q : Request,
      handle IsAllowed keys r = Authorize IsAllowed q
      /\ Context q !! "username" = Some (default ""%string (keys !! "username"))
      /\ (forall k : string, k <> "username"%string -> Context q !! k = Context r !! k)
      /\ Resource q = Resource r /\ Action q = Action r /\ Subject q = Subject r)
  /\ (forall claimed : string,
        handle IsAllowed keys
          {| Resource := Resource r; Action := Action r; Subject := Subject r;
             Context := <["username" := claimed]> (Context r) |}
        = handle IsAllowed keys r).
Proof.
  split.
  - eexists. split; [reflexivity|]. simpl.
    split; [apply lookup_insert_eq|].
    split; [|repeat split].
    intros k Hk. apply lookup_insert_ne. congruence.
  - intros claimed. unfold handle. simpl. rewrite insert_insert_eq. reflexivity.
Qed.

Variable get : string -> option Auth.Secret.

(** X12: authentication and authorization composed.  When the strategy
    does not abort a request, it has resolved the token's key id to a
    secret of the cache, and the handler that runs on the context it
    leaves asks the warden about that secret's user: the decision is the
    one for the bound request with the secret's [Username] under the
    username key. *)
Theorem AuthFunc_then_handle (now : Auth.Time) (req : Auth.Request)
        (c : Auth.Context) (r : Request) :
  Auth.aborted (Auth.AuthFunc get now req c) = false ->
  exists (token : Auth.Token) (kid : string) (secret : Auth.Secret),
    Auth.bearer req = Some token
    /\ Auth.header_kid token = Some kid
    /\ get kid = Some secret
    /\ Auth.verifies token (Auth.Key secret) = true
    /\ Auth.KeyExpired now (Auth.Expires secret) = false
    /\ handle IsAllowed (Auth.Keys (Auth.AuthFunc get now req c)) r
       = Authorize IsAllowed
           {| Resource := Resource r; Action := Action r; Subject := Subject r;
              Context := <["username" := Auth.Username secret]> (Context r) |}.
Proof.
  intros Hab.
  destruct (AuthFunc_cases get now req c)
    as [(_ & H) | [(err & _ & _ & H) | [(s & _ & _ & _ & H) | H]]];
    try (rewrite H in Hab; discriminate).
  destruct H as (t & k & s & _ & Hb & _ & Hk & Hg & Hv & _ & Hx & H).
  exists t, k, s. repeat (split; [assumption|]).
  rewrite H. unfold handle. simpl.
  change Auth.UsernameKey with "username"%string.
  rewrite lookup_insert_eq. reflexivity.
Qed.

End Handler.

(** ** Expiry of an audit record, and the sizing of the pool *)

Section Sizing.

Import Analytics.

Variable Marshal : AnalyticsRecord -> option (list Z).

Lemma int64_small (z : Z) : - 2 ^ 63 <= z < 2 ^ 63 -> int64 z = z.
Proof. intros H. unfold int64. rewrite Z.mod_small; lia. Qed.

Lemma int64_wraps (z : Z) : 2 ^ 63 <= z < 2 ^ 64 -> int64 z = z - 2 ^ 64.
Proof.
  intros H. unfold int64.
  replace (z + 2 ^ 63) with (z - 2 ^ 63 + 1 * 2 ^ 64) by lia.
  rewrite Z_mod_plus_full, Z.mod_small; lia.
Qed.

(** X13: [SetExpiry] changes [ExpireAt] only.  Zero seconds stand for a
    hundred years of 365 days; from 1 to 9223372036 seconds, and for
    negative values down to -9223372036, the record expires that many
    seconds from now (in the past when negative); from 9223372037 seconds
    on the product with [time.Second] wraps around, so up to 18446744073
    seconds it yields an expiry that lies before now. *)
Theorem SetExpiry_window (now s : Z) (a : AnalyticsRecord) :
  SetExpiry now s a
  = {| TimeStamp := TimeStamp a; Username := Username a; Effect := Effect a;
       Conclusion := Conclusion a; Request := Request a; Policies := Policies a;
       Deciders := Deciders a; ExpireAt := ExpireAt (SetExpiry now s a) |}
  /\ ExpireAt (SetExpiry now 0 a) = now + 100 * 365 * 24 * 3600 * Second
  /\ (1 <= s <= 9223372036 ->
      ExpireAt (SetExpiry now s a) = now + s * Second
      /\ now < ExpireAt (SetExpiry now s a))
  /\ (- 9223372036 <= s <= -1 ->
      ExpireAt (SetExpiry now s a) = now + s * Second
      /\ ExpireAt (SetExpiry now s a) < now)
  /\ (9223372037 <= s <= 18446744073 ->
      ExpireAt (SetExpiry now s a) = now + s * Second - 2 ^ 64
      /\ ExpireAt (SetExpiry now s a) < now).
Proof.
  split; [reflexivity|]. split; [reflexivity|].
  unfold SetExpiry, Second; cbn [ExpireAt].
  split; [|split]; intros Hs.
  - destruct (Z.eqb_spec s 0); [lia|]. rewrite int64_small by lia. lia.
  - destruct (Z.eqb_spec s 0); [lia|]. rewrite int64_small by lia. lia.
  - destruct (Z.eqb_spec s 0); [lia|]. rewrite int64_wraps by lia. lia.
Qed.

(** X15: a buffer size below the pool size leaves every worker with a
    capacity of zero, and a worker of capacity zero never finds its buffer
    full: a record it receives and encodes is kept, and nothing is handed
    to the sink, as long as the last flush is less than a second ago. *)
Theorem zero_capacity_never_fills
        (options : AnalyticsOptions) (since now : Z) (w : Worker)
        (record : AnalyticsRecord) (encoded : list Z) :
  1 <= PoolSize options < 2 ^ 63 ->
  0 <= RecordsBufferSize options < PoolSize options ->
  Marshal record = Some encoded ->
  since - lastSentTS w < recordsBufferForcedFlushInterval ->
  exists r : Analytics,
    NewAnalytics options = Some r
    /\ workerBufferSize r = 0
    /\ worker_iter Marshal r since now (Received record) w
       = ({| recordsBuffer := recordsBuffer w ++ [encoded];
             lastSentTS := lastSentTS w; exited := false |}, []).
Proof.
  intros Hps Hrb Hm Hsince.
  assert (Hu : uint64 (PoolSize options) = PoolSize options).
  { unfold uint64. apply Z.mod_small. lia. }
  unfold NewAnalytics. rewrite Hu.
  destruct (Z.eqb_spec (PoolSize options) 0) as [H0|H0]; [lia|].
  eexists. split; [reflexivity|]. cbn [workerBufferSize].
  assert (Hz : RecordsBufferSize options / PoolSize options = 0)
    by (apply Z.div_small; lia).
  split; [exact Hz|].
  unfold worker_iter. cbn [workerBufferSize]. rewrite Hm, Hz.
  rewrite List.length_app. simpl List.length.
  destruct (Z.eqb_spec (Z.of_nat (List.length (recordsBuffer w) + 1)) 0); [lia|].
  destruct (Z.leb_spec recordsBufferForcedFlushInterval (since - lastSentTS w)); [lia|].
  rewrite andb_false_r. reflexivity.
Qed.

(** X16: what a worker hands to the sink.  While the channel is open a
    batch is never empty and is always the worker's whole buffer, after
    which the buffer is empty and the time of the last flush is the
    current one; an iteration without a flush keeps that time and keeps
    the buffer, extended by at most the record just encoded.  A timeout
    flushes whatever the buffer holds, and the closed channel makes the
    worker hand over what is left, be it nothing, and return. *)
Theorem flushes_are_whole_and_nonempty
        (r : Analytics) (since now : Z) (sel : selected) (w : Worker) :
  match sel with
  | ChanClosed =>
      worker_iter Marshal r since now sel w
      = ({| recordsBuffer := recordsBuffer w; lastSentTS := lastSentTS w;
            exited := true |}, [recordsBuffer w])
  | _ =>
      exists b : list (list Z),
        (b = recordsBuffer w
         \/ exists record encoded,
              sel = Received record /\ Marshal record = Some encoded
              /\ b = recordsBuffer w ++ [encoded])
        /\ (worker_iter Marshal r since now sel w
            = ({| recordsBuffer := b; lastSentTS := lastSentTS w; exited := false |}, [])
            \/ (b <> []
                /\ worker_iter Marshal r since now sel w
                   = ({| recordsBuffer := []; lastSentTS := now; exited := false |},
                      [b])))
        /\ (sel = TimedOut -> b <> [] ->
            snd (worker_iter Marshal r since now sel w) = [b])
  end.
Proof.
  assert (Hne : forall b : list (list Z), (0 <? List.length b)%nat = true -> b <> []).
  { intros [|x b]; [discriminate | discriminate]. }
  destruct sel as [record| |]; [|reflexivity|].
  - unfold worker_iter.
    set (b := match Marshal record with
              | Some encoded => recordsBuffer w ++ [encoded]
              | None => recordsBuffer w
              end).
    exists b. split; [|split; [|discriminate]].
    + subst b. destruct (Marshal record) as [encoded|] eqn:Hm;
        [right; exists record, encoded; auto | left; reflexivity].
    + destruct ((0 <? List.length b)%nat && _) eqn:E; [|left; reflexivity].
      right. split; [|reflexivity].
      apply andb_true_iff in E. apply Hne, E.
  - exists (recordsBuffer w). split; [left; reflexivity|].
    unfold worker_iter. cbn [orb andb].
    destruct (0 <? List.length (recordsBuffer w))%nat eqn:E; cbn [andb].
    + split; [right; split; [apply Hne, E | reflexivity] | reflexivity].
    + split; [left; reflexivity|].
      intros _ Hb. destruct (recordsBuffer w); [congruence | discriminate].
Qed.

Lemma no_workers_step (l : label) (s : System) :
  workers s = [] -> sink s = [] ->
  workers (step Marshal l s) = [] /\ sink (step Marshal l s) = [].
Proof.
  intros Hw Hs. unfold step.
  destruct (panicked s); [auto|].
  destruct l as [i|i since now|i since now|record].
  - destruct (stoppers s !! i) as [p|]; [|auto].
    destruct p; simpl; auto.
    + destruct (closed _); simpl; auto.
    + destruct (_ =? 0); simpl; auto.
  - unfold worker_step. rewrite Hw. simpl. auto.
  - unfold worker_step. rewrite Hw. simpl. auto.
  - destruct (RecordHit (self s) record); simpl; auto.
Qed.

(** X19: the pool size is taken as it comes.  A pool size of zero makes
    [NewAnalytics] panic with a division by zero.  A negative one is
    accepted; it gives every worker a capacity of zero and [Start] then
    starts no worker at all, so that in no execution anything reaches the
    sink.  A positive one starts that many workers and splits the buffer
    size evenly, rounding down. *)
Theorem pool_size_is_not_validated (options : AnalyticsOptions) (now : Z) :
  (PoolSize options = 0 -> NewAnalytics options = None)
  /\ (- 2 ^ 63 <= PoolSize options < 0 ->
      0 <= RecordsBufferSize options < 2 ^ 32 ->
      exists r : Analytics,
        NewAnalytics options = Some r
        /\ workerBufferSize r = 0
        /\ forall ls : list label,
             workers (run Marshal ls (Start now (fresh r))) = []
             /\ sink (run Marshal ls (Start now (fresh r))) = [])
  /\ (1 <= PoolSize options < 2 ^ 63 ->
      0 <= RecordsBufferSize options < 2 ^ 32 ->
      exists r : Analytics,
        NewAnalytics options = Some r
        /\ List.length (workers (Start now (fresh r))) = Z.to_nat (PoolSize options)
        /\ workerBufferSize r * PoolSize options <= RecordsBufferSize options
        /\ RecordsBufferSize options < (workerBufferSize r + 1) * PoolSize options).
Proof.
  split; [|split].
  - intros H0. unfold NewAnalytics. rewrite H0. reflexivity.
  - intros Hps Hrb.
    assert (Hu : uint64 (PoolSize options) = PoolSize options + 2 ^ 64).
    { unfold uint64.
      replace (PoolSize options) with (PoolSize options + 2 ^ 64 + (-1) * 2 ^ 64) at 1 by lia.
      rewrite Z_mod_plus_full. apply Z.mod_small. lia. }
    unfold NewAnalytics. rewrite Hu.
    destruct (Z.eqb_spec (PoolSize options + 2 ^ 64) 0) as [H0|H0]; [lia|].
    eexists. split; [reflexivity|]. cbn [workerBufferSize].
    split; [apply Z.div_small; lia|].
    intros ls. induction ls as [|l ls IH] using rev_ind.
    + unfold Start, spawn_workers. simpl.
      replace (Z.to_nat (PoolSize options)) with 0%nat by lia. split; reflexivity.
    + unfold run in *. rewrite fold_left_app. simpl.
      destruct IH as [Hw Hs]. apply no_workers_step; assumption.
  - intros Hps Hrb.
    assert (Hu : uint64 (PoolSize options) = PoolSize options).
    { unfold uint64. apply Z.mod_small. lia. }
    unfold NewAnalytics. rewrite Hu.
    destruct (Z.eqb_spec (PoolSize options) 0) as [H0|H0]; [lia|].
    eexists. split; [reflexivity|].
    split; [unfold Start, spawn_workers; simpl; apply List.repeat_length|].
    cbn [workerBufferSize].
    pose proof (Z.mul_div_le (RecordsBufferSize options) (PoolSize options)).
    pose proof (Z.mul_succ_div_gt (RecordsBufferSize options) (PoolSize options)).
    lia.
Qed.

End Sizing.

(** ** Stopping twice *)

Section StopTwice.

Import Analytics.

Variable Marshal : AnalyticsRecord -> option (list Z).

Lemma stop_steps_snoc (i : nat) (ls : list label) (l : label) :
  stop_steps i (ls ++ [l])
  = (stop_steps i ls
     + match l with StopStep j => if Nat.eqb i j then 1 else 0 | _ => 0 end)%nat.
Proof.
  unfold stop_steps. rewrite List.filter_app, List.length_app. simpl.
  destruct l as [j| | |]; simpl; try lia.
  destruct (Nat.eqb i j); simpl; lia.
Qed.

(** A call of [RecordHit] leaves the goroutines running [Stop] and the
    state of the channel alone. *)
Lemma hit_frame (record : AnalyticsRecord) (s : System) :
  stoppers (step Marshal (Hit record) s) = stoppers s
  /\ closed (recordsChan (self (step Marshal (Hit record) s)))
     = closed (recordsChan (self s))
  /\ (panicked s = true -> panicked (step Marshal (Hit record) s) = true).
Proof.
  unfold step. destruct (panicked s) eqn:Hp; [auto|].
  unfold RecordHit, send.
  destruct (0 <? shouldStop (self s));
    [simpl; repeat split; intros; congruence|].
  destruct (closed (recordsChan (self s))) eqn:Hc;
    [simpl; repeat split; intros; congruence|].
  destruct (_ <? _); simpl; repeat split; intros; congruence.
Qed.

Lemma stopping_twice_step (n0 n1 : nat) (l : label) (s : System) :
  stopping_twice n0 n1 s ->
  stopping_twice
    (n0 + match l with StopStep 0 => 1 | _ => 0 end)
    (n1 + match l with StopStep 1 => 1 | _ => 0 end)
    (step Marshal l s).
Proof.
  intros (p & q & Hs & Hboth & Hinv).
  destruct (panicked s) eqn:Hp.
  { unfold step. rewrite Hp. exists p, q.
    split; [exact Hs|]. split; [exact Hboth|]. congruence. }
  specialize (Hinv eq_refl). destruct Hinv as (Hc & H0 & H1).
  destruct l as [i|i since now|i since now|record].
  - unfold step. rewrite Hp, Hs.
    destruct i as [|[|i]]; cbn [lookup list_lookup].
    + (* the first of the two *)
      destruct p; cbn [stop_step].
      * exists StopClose, q. simpl. rewrite Hs. simpl in *.
        split; [reflexivity|]. split; [lia|]. intros _.
        split; [rewrite Hc; lia|]. split; lia.
      * destruct (closed (recordsChan (self s))) eqn:E.
        -- exists StopClose, q. simpl. rewrite Hs. simpl in *.
           split; [reflexivity|]. split; [lia|]. discriminate.
        -- exists StopWait, q. simpl. rewrite Hs. simpl in *.
           assert (Hq : (rank q < 2)%nat).
           { destruct (Nat.lt_ge_cases (rank q) 2) as [|Hge]; [assumption|].
             assert (false = true) by (apply Hc; auto). discriminate. }
           split; [reflexivity|]. split; [lia|]. intros _.
           split; [split; auto|]. split; lia.
      * destruct (poolWg (self s) =? 0);
          [exists StopDone, q | exists StopWait, q];
          simpl; rewrite Hs; simpl in *;
          (split; [reflexivity|]); (split; [lia|]); intros _;
          (split; [rewrite Hc; split; intros _; left; lia|]); split; lia.
      * exists StopDone, q. simpl. rewrite Hs. simpl in *.
        split; [reflexivity|]. split; [exact Hboth|]. intros _.
        split; [exact Hc|]. split; lia.
    + (* the second *)
      destruct q; cbn [stop_step].
      * exists p, StopClose. simpl. rewrite Hs. simpl in *.
        split; [reflexivity|]. split; [lia|]. intros _.
        split; [rewrite Hc; lia|]. split; lia.
      * destruct (closed (recordsChan (self s))) eqn:E.
        -- exists p, StopClose. simpl. rewrite Hs. simpl in *.
           split; [reflexivity|]. split; [lia|]. discriminate.
        -- exists p, StopWait. simpl. rewrite Hs. simpl in *.
           assert (Hq : (rank p < 2)%nat).
           { destruct (Nat.lt_ge_cases (rank p) 2) as [|Hge]; [assumption|].
             assert (false = true) by (apply Hc; auto). discriminate. }
           split; [reflexivity|]. split; [lia|]. intros _.
           split; [split; auto|]. split; lia.
      * destruct (poolWg (self s) =? 0);
          [exists p, StopDone | exists p, StopWait];
          simpl; rewrite Hs; simpl in *;
          (split; [reflexivity|]); (split; [lia|]); intros _;
          (split; [rewrite Hc; split; intros _; right; lia|]); split; lia.
      * exists p, StopDone. simpl. rewrite Hs. simpl in *.
        split; [reflexivity|]. split; [exact Hboth|]. intros _.
        split; [exact Hc|]. split; lia.
    + exists p, q. rewrite !Nat.add_0_r. simpl. auto.
  - change (step Marshal (WorkerRecv i since now) s)
      with (if panicked s then s else worker_step Marshal i since now false s).
    rewrite Hp.
    destruct (worker_step_frame Marshal i since now false s) as (E1 & E2 & _ & E4).
    exists p, q. rewrite E2, E4, !Nat.add_0_r. auto.
  - change (step Marshal (WorkerTimeout i since now) s)
      with (if panicked s then s else worker_step Marshal i since now true s).
    rewrite Hp.
    destruct (worker_step_frame Marshal i since now true s) as (E1 & E2 & _ & E4).
    exists p, q. rewrite E2, E4, !Nat.add_0_r. auto.
  - destruct (hit_frame record s) as (E2 & E4 & _).
    exists p, q. rewrite E2, E4, !Nat.add_0_r. auto.
Qed.

Lemma stopping_twice_run (options : AnalyticsOptions) (r : Analytics) (now : Z)
      (ls : list label) :
  NewAnalytics options = Some r ->
  stopping_twice (stop_steps 0 ls) (stop_steps 1 ls)
    (run Marshal ls (call_Stop (Start now (fresh r)))).
Proof.
  intros Hnew. induction ls as [|l ls IH] using rev_ind.
  - unfold NewAnalytics in Hnew. destruct (_ =? 0); [discriminate|].
    injection Hnew as <-.
    exists StopSwap, StopSwap. simpl.
    split; [reflexivity|]. split; [lia|]. intros _.
    split; [split; [discriminate | lia]|].
    split; left; unfold stop_steps; simpl; lia.
  - unfold run in *. rewrite fold_left_app, !stop_steps_snoc. simpl fold_left.
    apply (stopping_twice_step _ _ l) in IH.
    destruct l as [[|[|j]]| | |]; simpl in *; exact IH.
Qed.

(** X18: [Stop] must not be called a second time.  [Start] already has a
    goroutine running [Stop]; when the shutdown callback of the server
    calls [Stop] as well, at most one of the two calls gets past closing
    the channel, and in every execution in which each of them has been
    scheduled for its first two statements the pipeline has panicked with
    the close of a closed channel. *)
Theorem second_Stop_panics (options : AnalyticsOptions) (r : Analytics) (now : Z)
        (ls : list label) :
  NewAnalytics options = Some r ->
  (exists p q : stop_pc,
      stoppers (run Marshal ls (call_Stop (Start now (fresh r)))) = [p; q]
      /\ ((rank p < 2)%nat \/ (rank q < 2)%nat))
  /\ ((2 <= stop_steps 0 ls)%nat -> (2 <= stop_steps 1 ls)%nat ->
      panicked (run Marshal ls (call_Stop (Start now (fresh r)))) = true).
Proof.
  intros Hnew.
  destruct (stopping_twice_run options r now ls Hnew) as (p & q & Hs & Hboth & Hinv).
  split.
  - exists p, q. split; [exact Hs|].
    destruct (Nat.lt_ge_cases (rank p) 2) as [|Hp]; [left; assumption|].
    destruct (Nat.lt_ge_cases (rank q) 2) as [|Hq]; [right; assumption|].
    destruct (Hboth Hp Hq).
  - intros H0 H1.
    destruct (panicked (run Marshal ls (call_Stop (Start now (fresh r))))) eqn:Hp;
      [reflexivity|].
    destruct (Hinv eq_refl) as (_ & Hr0 & Hr1).
    exfalso. apply Hboth; lia.
Qed.

End StopTwice.

(** ** No record is lost and none is duplicated *)

Section Conservation.

Import Analytics.

Variable Marshal : AnalyticsRecord -> option (list Z).

Lemma live_buffers_middle (a b : list Worker) (x : Worker) :
  live_buffers (a ++ x :: b)
  = live_buffers a ++ (if exited x then [] else recordsBuffer x) ++ live_buffers b.
Proof.
  unfold live_buffers. rewrite List.filter_app, List.map_app, List.concat_app.
  simpl. destruct (exited x); reflexivity.
Qed.

Lemma split_at_worker (ws : list Worker) (i : nat) (w : Worker) :
  ws !! i = Some w ->
  exists a b, ws = a ++ w :: b /\ forall w', <[i := w']> ws = a ++ w' :: b.
Proof.
  intros H. exists (take i ws), (drop (S i) ws). split.
  - symmetry. apply take_drop_middle, H.
  - intros w'. apply insert_take_drop. eapply lookup_lt_Some, H.
Qed.

(** One iteration moves records from the buffer to the sink and adds the
    record it received; it drops and invents none. *)
Lemma worker_iter_conserves (r : Analytics) (since now : Z) (sel : selected)
      (w : Worker) :
  (if exited (fst (worker_iter Marshal r since now sel w)) then []
   else recordsBuffer (fst (worker_iter Marshal r since now sel w)))
  ++ concat (snd (worker_iter Marshal r since now sel w))
  = recordsBuffer w
    ++ omap Marshal match sel with Received record => [record] | _ => [] end.
Proof.
  unfold worker_iter. destruct sel as [record| |].
  - simpl omap. destruct (Marshal record) as [encoded|]; simpl omap;
      destruct (_ && _); simpl; rewrite ?app_nil_r; reflexivity.
  - simpl. rewrite !app_nil_r. reflexivity.
  - destruct (_ && _); simpl; rewrite ?app_nil_r; reflexivity.
Qed.

Lemma worker_iter_exited (r : Analytics) (since now : Z) (sel : selected) (w : Worker) :
  exited (fst (worker_iter Marshal r since now sel w))
  = match sel with ChanClosed => true | _ => false end.
Proof.
  unfold worker_iter. destruct sel as [record| |]; [|reflexivity|];
    destruct (_ && _); reflexivity.
Qed.

(** What a worker's step does to the pipeline, in terms of what its
    select found. *)
Lemma worker_step_cases (i : nat) (since now : Z) (timeout : bool) (s : System) :
  worker_step Marshal i since now timeout s = s
  \/ exists (w : Worker) (sel : selected) (c : chan) (r' : Analytics),
       workers s !! i = Some w /\ exited w = false
       /\ (if timeout then sel = TimedOut /\ c = recordsChan (self s)
           else receive (recordsChan (self s)) = Some (sel, c))
       /\ recordsChan r' = c
       /\ worker_step Marshal i since now timeout s
          = {| self := r'; analytics := analytics s; connected := connected s;
               workers := <[i := fst (worker_iter Marshal (self s) since now sel w)]>
                            (workers s);
               stoppers := stoppers s;
               sink := sink s ++ snd (worker_iter Marshal (self s) since now sel w);
               panicked := panicked s |}.
Proof.
  unfold worker_step.
  destruct (workers s !! i) as [w|] eqn:Hw; [|left; reflexivity].
  destruct (exited w) eqn:He; [left; reflexivity|].
  destruct timeout.
  - right.
    destruct (worker_iter Marshal (self s) since now TimedOut w) as [w' out] eqn:E.
    exists w, TimedOut, (recordsChan (self s)),
      (let r := set_chan (self s) (recordsChan (self s)) in
       if exited w' then set_poolWg r (poolWg r - 1) else r).
    rewrite E. simpl.
    split; [reflexivity|]. split; [assumption|]. split; [auto|].
    split; [destruct (exited w'); reflexivity | reflexivity].
  - destruct (receive (recordsChan (self s))) as [[sel c]|] eqn:Hr; [|left; reflexivity].
    right.
    destruct (worker_iter Marshal (self s) since now sel w) as [w' out] eqn:E.
    exists w, sel, c,
      (let r := set_chan (self s) c in
       if exited w' then set_poolWg r (poolWg r - 1) else r).
    rewrite E. simpl.
    split; [reflexivity|]. split; [assumption|]. split; [reflexivity|].
    split; [destruct (exited w'); reflexivity | reflexivity].
Qed.

Lemma receive_cases (c : chan) (sel : selected) (c' : chan) :
  receive c = Some (sel, c') ->
  (exists record, sel = Received record /\ buf c = record :: buf c'
                  /\ closed c' = closed c)
  \/ (sel = ChanClosed /\ c' = c /\ buf c = [] /\ closed c = true).
Proof.
  unfold receive. destruct (buf c) as [|record rest] eqn:Hb.
  - destruct (closed c) eqn:Hc; [|discriminate].
    intros [= <- <-]. right. auto.
  - intros [= <- <-]. left. exists record. auto.
Qed.

(** A step changes the records in flight by what it put on the channel. *)
Lemma in_flight_step (l : label) (s : System) :
  in_flight Marshal (step Marshal l s)
  ≡ₚ in_flight Marshal s ++ omap Marshal (enqueued Marshal l s).
Proof.
  unfold enqueued.
  destruct (panicked s) eqn:Hp.
  { unfold step. rewrite Hp.
    destruct l; rewrite ?drop_all; simpl; rewrite app_nil_r; reflexivity. }
  destruct l as [i|i since now|i since now|record].
  - simpl omap. rewrite app_nil_r. unfold step. rewrite Hp.
    destruct (stoppers s !! i) as [p|]; [|reflexivity].
    destruct p; simpl; try reflexivity.
    + destruct (closed (recordsChan (self s))); reflexivity.
    + destruct (poolWg (self s) =? 0); reflexivity.
  - simpl omap. rewrite app_nil_r.
    change (step Marshal (WorkerRecv i since now) s)
      with (if panicked s then s else worker_step Marshal i since now false s).
    rewrite Hp.
    destruct (worker_step_cases i since now false s)
      as [-> | (w & sel & c & r' & Hw & He & Hsel & Hc & ->)]; [reflexivity|].
    destruct (split_at_worker _ _ _ Hw) as (a & b & Hab & Hins).
    pose proof (worker_iter_conserves (self s) since now sel w) as Hcons.
    pose proof (worker_iter_exited (self s) since now sel w) as Hex.
    unfold in_flight. cbn [self workers sink]. rewrite Hins, Hc, Hab.
    rewrite !live_buffers_middle, He, List.concat_app.
    destruct (receive_cases _ _ _ Hsel)
      as [(record & -> & Hb & _) | (-> & -> & Hb & _)].
    + rewrite Hb. simpl omap in *.
      set (W' := if exited _ then _ else _) in *.
      set (O := concat (snd _)) in *.
      transitivity (omap Marshal (buf c) ++ live_buffers a ++ live_buffers b
                    ++ concat (sink s) ++ (W' ++ O)); [solve_Permutation|].
      rewrite Hcons.
      destruct (Marshal record) as [encoded|]; solve_Permutation.
    + simpl omap in Hcons. rewrite app_nil_r in Hcons.
      set (W' := if exited _ then _ else _) in *.
      set (O := concat (snd _)) in *.
      transitivity (omap Marshal (buf (recordsChan (self s)))
                    ++ live_buffers a ++ live_buffers b
                    ++ concat (sink s) ++ (W' ++ O)); [solve_Permutation|].
      rewrite Hcons. solve_Permutation.
  - simpl omap. rewrite app_nil_r.
    change (step Marshal (WorkerTimeout i since now) s)
      with (if panicked s then s else worker_step Marshal i since now true s).
    rewrite Hp.
    destruct (worker_step_cases i since now true s)
      as [-> | (w & sel & c & r' & Hw & He & [-> ->] & Hc & ->)]; [reflexivity|].
    destruct (split_at_worker _ _ _ Hw) as (a & b & Hab & Hins).
    pose proof (worker_iter_conserves (self s) since now TimedOut w) as Hcons.
    unfold in_flight. cbn [self workers sink]. rewrite Hins, Hc, Hab.
    rewrite !live_buffers_middle, He, List.concat_app.
    simpl omap in Hcons. rewrite app_nil_r in Hcons.
    set (W' := if exited _ then _ else _) in *.
    set (O := concat (snd _)) in *.
    transitivity (omap Marshal (buf (recordsChan (self s)))
                  ++ live_buffers a ++ live_buffers b
                  ++ concat (sink s) ++ (W' ++ O)); [solve_Permutation|].
    rewrite Hcons. solve_Permutation.
  - unfold step. rewrite Hp. unfold RecordHit, send.
    destruct (0 <? shouldStop (self s)).
    { simpl. rewrite drop_all. simpl. rewrite app_nil_r. reflexivity. }
    destruct (closed (recordsChan (self s))).
    { simpl. rewrite drop_all. simpl. rewrite app_nil_r. reflexivity. }
    destruct (_ <? _).
    + unfold in_flight. simpl. rewrite drop_app_length, omap_app.
      solve_Permutation.
    + simpl. rewrite drop_all. simpl. rewrite app_nil_r. reflexivity.
Qed.

Lemma in_flight_run (ls : list label) (s : System) :
  in_flight Marshal (run Marshal ls s)
  ≡ₚ in_flight Marshal s ++ omap Marshal (accepted Marshal ls s).
Proof.
  revert s. induction ls as [|l ls IH]; intros s.
  - simpl. rewrite app_nil_r. reflexivity.
  - change (run Marshal (l :: ls) s) with (run Marshal ls (step Marshal l s)).
    rewrite IH, in_flight_step. simpl accepted. rewrite omap_app.
    rewrite <- app_assoc. reflexivity.
Qed.

(** X17: the pipeline neither loses nor duplicates what it has accepted.
    Over any execution, from any state, the encoded records it holds (in
    the channel, in the buffers of the running workers and in the sink)
    are those it held before together with the encodings of the records
    that calls of [RecordHit] put on the channel meanwhile, each as often
    as it was put there; a call of [RecordHit] puts its own record there or
    nothing.  Only a record that cannot be encoded is dropped. *)
Theorem records_are_conserved (ls : list label) (s : System) :
  in_flight Marshal (run Marshal ls s)
  ≡ₚ in_flight Marshal s ++ omap Marshal (accepted Marshal ls s)
  /\ (forall l : label,
        in_flight Marshal (step Marshal l s)
        ≡ₚ in_flight Marshal s ++ omap Marshal (enqueued Marshal l s))
  /\ (forall record : AnalyticsRecord,
        enqueued Marshal (Hit record) s = []
        \/ enqueued Marshal (Hit record) s = [record]).
Proof.
  split; [apply in_flight_run|]. split; [intros l; apply in_flight_step|].
  intros record. unfold enqueued, step.
  destruct (panicked s); [left; apply drop_all|].
  unfold RecordHit, send.
  destruct (0 <? shouldStop (self s)); [left; apply drop_all|].
  destruct (closed (recordsChan (self s))); [left; apply drop_all|].
  destruct (_ <? _); [right | left; apply drop_all].
  simpl. apply drop_app_length.
Qed.

Lemma In_middle (a b : list Worker) (x y : Worker) :
  In y (a ++ x :: b) <-> In y a \/ y = x \/ In y b.
Proof. rewrite in_app_iff. simpl. intuition congruence. Qed.

(** The invariant behind the draining: a worker returns only from a
    channel that is closed and empty, and nothing reopens or refills it. *)
Lemma drained_step (l : label) (s : System) : drained s -> drained (step Marshal l s).
Proof.
  intros Hd. unfold step.
  destruct (panicked s) eqn:Hp; [exact Hd|].
  destruct l as [i|i since now|i since now|record].
  - destruct (stoppers s !! i) as [p|]; [|exact Hd].
    destruct p; simpl.
    + exact Hd.
    + destruct (closed (recordsChan (self s))) eqn:Hc; [exact Hd|].
      intros Hex. destruct (Hd Hex) as [Hc' Hb]. simpl. split; [reflexivity | exact Hb].
    + destruct (poolWg (self s) =? 0); exact Hd.
    + exact Hd.
  - destruct (worker_step_cases i since now false s)
      as [-> | (w & sel & c & r' & Hw & He & Hsel & Hc & ->)]; [exact Hd|].
    destruct (split_at_worker _ _ _ Hw) as (a & b & Hab & Hins).
    pose proof (worker_iter_exited (self s) since now sel w) as Hex.
    unfold drained. cbn [self workers]. rewrite Hins, Hc.
    intros (y & Hy & Hye). apply In_middle in Hy.
    destruct (receive_cases _ _ _ Hsel)
      as [(record & -> & Hb & Hcl) | (-> & -> & Hb & Hcl)]; [|auto].
    assert (Hold : exists y, In y (workers s) /\ exited y = true).
    { exists y. split; [|exact Hye]. rewrite Hab. apply In_middle.
      destruct Hy as [Hy | [-> | Hy]]; [auto | congruence | auto]. }
    destruct (Hd Hold) as [_ Hnil]. congruence.
  - destruct (worker_step_cases i since now true s)
      as [-> | (w & sel & c & r' & Hw & He & [-> ->] & Hc & ->)]; [exact Hd|].
    destruct (split_at_worker _ _ _ Hw) as (a & b & Hab & Hins).
    pose proof (worker_iter_exited (self s) since now TimedOut w) as Hex.
    unfold drained. cbn [self workers]. rewrite Hins, Hc.
    intros (y & Hy & Hye). apply In_middle in Hy.
    apply Hd. exists y. split; [|exact Hye]. rewrite Hab. apply In_middle.
    destruct Hy as [Hy | [-> | Hy]]; [auto | congruence | auto].
  - unfold RecordHit, send.
    destruct (0 <? shouldStop (self s)).
    { rewrite with_self_self. exact Hd. }
    destruct (closed (recordsChan (self s))) eqn:Hc; [exact Hd|].
    destruct (_ <? _); [|exact Hd].
    intros Hex. destruct (Hd Hex) as [Hc' _]. congruence.
Qed.

Lemma drained_run (ls : list label) (s : System) : drained s -> drained (run Marshal ls s).
Proof.
  intros H. induction ls as [|l ls IH] using rev_ind; [exact H|].
  unfold run in *. rewrite fold_left_app. simpl. apply drained_step, IH.
Qed.

Lemma live_buffers_exited (ws : list Worker) :
  Forall (fun w => exited w = true) ws -> live_buffers ws = [].
Proof.
  unfold live_buffers. induction 1 as [|w ws Hw _ IH]; [reflexivity|].
  simpl. rewrite Hw. exact IH.
Qed.

Lemma live_buffers_spawned (now : Z) (n : nat) :
  live_buffers (repeat {| recordsBuffer := []; lastSentTS := now; exited := false |} n)
  = [].
Proof. unfold live_buffers. induction n as [|n IH]; [reflexivity | exact IH]. Qed.

(** X20: nothing that was accepted is missing at the end.  In every
    execution of a pipeline that [Start] set up with at least one worker,
    once all workers have returned the channel is empty, and the batches
    in the sink hold exactly the encodings of the records that calls of
    [RecordHit] had put on the channel, each as often as it was put
    there. *)
Theorem sink_holds_all_accepted_records
        (options : AnalyticsOptions) (r : Analytics) (now : Z) (ls : list label) :
  NewAnalytics options = Some r ->
  workers (run Marshal ls (Start now (fresh r))) <> [] ->
  Forall (fun w => exited w = true) (workers (run Marshal ls (Start now (fresh r)))) ->
  buf (recordsChan (self (run Marshal ls (Start now (fresh r))))) = []
  /\ closed (recordsChan (self (run Marshal ls (Start now (fresh r))))) = true
  /\ concat (sink (run Marshal ls (Start now (fresh r))))
     ≡ₚ omap Marshal (accepted Marshal ls (Start now (fresh r))).
Proof.
  intros Hnew Hne Hall.
  assert (H0 : in_flight Marshal (Start now (fresh r)) = []
               /\ drained (Start now (fresh r))).
  { unfold NewAnalytics in Hnew. destruct (_ =? 0); [discriminate|].
    injection Hnew as <-. split.
    - unfold in_flight, Start, spawn_workers. simpl.
      rewrite live_buffers_spawned. reflexivity.
    - intros (w & Hw & He). unfold Start, spawn_workers in Hw. simpl in Hw.
      apply repeat_spec in Hw. subst w. discriminate. }
  destruct H0 as [Hempty Hd0].
  pose proof (drained_run ls _ Hd0) as Hd.
  pose proof (in_flight_run ls (Start now (fresh r))) as Hperm.
  set (s := run Marshal ls (Start now (fresh r))) in *.
  assert (Hex : exists w, In w (workers s) /\ exited w = true).
  { destruct (workers s) as [|w ws]; [congruence|].
    exists w. split; [left; reflexivity|].
    apply Forall_inv in Hall. exact Hall. }
  destruct (Hd Hex) as [Hc Hb].
  split; [exact Hb|]. split; [exact Hc|].
  rewrite Hempty in Hperm. simpl in Hperm. rewrite <- Hperm.
  unfold in_flight. rewrite Hb, (live_buffers_exited _ Hall). reflexivity.
Qed.

End Conservation.

(** ** The properties above at concrete inputs *)

Lemma reloads_within_ticks_and_notifications_witness :
  Load.quiet Examples.idle
  /\ (Load.reloads
        (Load.trace
           (Load.loader_run Examples.reload_ok [] Examples.burst_then_ticks Examples.idle))
      <= Load.reloads (Load.trace Examples.idle)
         + Nat.min (Load.count Load.is_tick Examples.burst_then_ticks)
                   (Load.count Load.triggers Examples.burst_then_ticks))%nat.
Proof.
  split; [split; reflexivity|].
  apply (reloads_within_ticks_and_notifications unit Examples.reload_ok []
           Examples.burst_then_ticks Examples.idle).
  split; reflexivity.
Defined.

Lemma callbacks_run_in_arrival_order_witness :
  Load.quiet Examples.idle
  /\ Load.panicked Examples.idle = false
  /\ Forall (fun nf => Load.recognized (fst nf) = true) Examples.burst
  /\ Load.actions
       (Load.trace
          (Load.loader_run Examples.reload_ok []
             (map (fun nf => Load.Arrives (Load.Message (Some (fst nf))) false (snd nf))
                  Examples.burst
              ++ repeat Load.Ticks 2)
             Examples.idle))
     = Load.actions (Load.trace Examples.idle)
       ++ Load.StoreReload :: map Load.Call (Load.non_nil (map snd Examples.burst)).
Proof.
  split; [split; reflexivity|]. split; [reflexivity|].
  split; [repeat constructor|].
  apply (callbacks_run_in_arrival_order unit Examples.reload_ok Examples.burst 1
           Examples.idle);
    [split; reflexivity | reflexivity | repeat constructor | discriminate].
Defined.

Lemma failed_reload_is_not_retried_witness :
  Load.requeue Examples.pending <> []
  /\ Examples.reload_fails (Load.l_store Examples.pending)
     = (Some "connection refused"%string, tt)
  /\ Load.requeue (Load.reloadLoop_tick Examples.reload_fails [] Examples.pending) = []
  /\ Load.reloadLoop_tick Examples.reload_fails []
       (Load.reloadLoop_tick Examples.reload_fails [] Examples.pending)
     = Load.reloadLoop_tick Examples.reload_fails [] Examples.pending.
Proof.
  split; [discriminate|]. split; [reflexivity|].
  split;
    apply (failed_reload_is_not_retried unit Examples.reload_fails [] Examples.pending
             "connection refused" tt);
    first [discriminate | reflexivity].
Defined.

Lemma Start_reloads_once_when_idle_witness :
  Load.quiet Examples.idle
  /\ Forall (fun e => Load.triggers e = false) ([Load.Ticks] ++ Examples.noise)
  /\ Load.reloads
       (Load.trace
          (Load.loader_run Examples.reload_ok [] Examples.noise
             (Load.Start Examples.reload_ok
                (Load.loader_run Examples.reload_ok [] [Load.Ticks] Examples.idle))))
     = S (Load.reloads (Load.trace Examples.idle)).
Proof.
  split; [split; reflexivity|]. split; [repeat constructor|].
  apply (Start_reloads_once_when_idle unit Examples.reload_ok [] [Load.Ticks]
           Examples.noise Examples.idle);
    [split; reflexivity | repeat constructor].
Defined.


Lemma AuthFunc_then_handle_witness :
  Auth.aborted
    (Auth.AuthFunc Examples.one_secret Examples.a_time Examples.signed_request
       Examples.fresh_context) = false
  /\ exists (token : Auth.Token) (kid : string) (secret : Auth.Secret),
       Auth.bearer Examples.signed_request = Some token
       /\ Auth.header_kid token = Some kid
       /\ Examples.one_secret kid = Some secret
       /\ Auth.verifies token (Auth.Key secret) = true
       /\ Auth.KeyExpired Examples.a_time (Auth.Expires secret) = false
       /\ Authorization.handle Examples.allow_all
            (Auth.Keys
               (Auth.AuthFunc Examples.one_secret Examples.a_time
                  Examples.signed_request Examples.fresh_context))
            Examples.read_articles
          = Authorization.Authorize Examples.allow_all
              (Authorization.MkRequest
                 (Authorization.Resource Examples.read_articles)
                 (Authorization.Action Examples.read_articles)
                 (Authorization.Subject Examples.read_articles)
                 (<["username" := Auth.Username secret]>
                    (Authorization.Context Examples.read_articles))).
Proof.
  split; [reflexivity|].
  apply (AuthFunc_then_handle Examples.allow_all Examples.one_secret Examples.a_time
           Examples.signed_request Examples.fresh_context Examples.read_articles).
  reflexivity.
Defined.

Lemma worker_buffer_below_capacity_witness :
  1 <= Analytics.workerBufferSize Examples.two_worker_pipeline
  /\ Z.of_nat (List.length (Analytics.recordsBuffer Examples.half_full))
     < Analytics.workerBufferSize Examples.two_worker_pipeline
  /\ Z.of_nat
       (List.length
          (Analytics.recordsBuffer
             (fst (Analytics.worker_iter Examples.encode Examples.two_worker_pipeline
                     5 6 (Analytics.Received Examples.a_record) Examples.half_full))))
     < Analytics.workerBufferSize Examples.two_worker_pipeline.
Proof.
  split; [simpl; lia|]. split; [simpl; lia|].
  apply (worker_buffer_below_capacity Examples.encode Examples.two_worker_pipeline
           5 6 (Analytics.Received Examples.a_record) Examples.half_full);
    simpl; lia.
Defined.

Lemma zero_capacity_never_fills_witness :
  1 <= Analytics.PoolSize Examples.starved < 2 ^ 63
  /\ 0 <= Analytics.RecordsBufferSize Examples.starved
     < Analytics.PoolSize Examples.starved
  /\ Examples.encode Examples.a_record = Some [2]
  /\ 5 - Analytics.lastSentTS Examples.half_full
     < Analytics.recordsBufferForcedFlushInterval
  /\ exists r : Analytics.Analytics,
       Analytics.NewAnalytics Examples.starved = Some r
       /\ Analytics.workerBufferSize r = 0
       /\ Analytics.worker_iter Examples.encode r 5 6
            (Analytics.Received Examples.a_record) Examples.half_full
          = (Analytics.MkWorker
               (Analytics.recordsBuffer Examples.half_full ++ [[2]])
               (Analytics.lastSentTS Examples.half_full) false, []).
Proof.
  split; [simpl; lia|]. split; [simpl; lia|]. split; [reflexivity|].
  split; [reflexivity|].
  apply (zero_capacity_never_fills Examples.encode Examples.starved 5 6
           Examples.half_full Examples.a_record [2]);
    [simpl; lia | simpl; lia | reflexivity | reflexivity].
Defined.

Lemma second_Stop_panics_witness :
  Analytics.NewAnalytics Examples.small = Some Examples.small_pipeline
  /\ (2 <= Analytics.stop_steps 0 Examples.two_stops)%nat
  /\ (2 <= Analytics.stop_steps 1 Examples.two_stops)%nat
  /\ Analytics.panicked
       (Analytics.run Examples.encode Examples.two_stops
          (Analytics.call_Stop
             (Analytics.Start 0 (Analytics.fresh Examples.small_pipeline))))
     = true.
Proof.
  split; [reflexivity|].
  split; [apply Nat.leb_le; reflexivity|].
  split; [apply Nat.leb_le; reflexivity|].
  apply (second_Stop_panics Examples.encode Examples.small Examples.small_pipeline 0
           Examples.two_stops);
    [reflexivity | apply Nat.leb_le; reflexivity | apply Nat.leb_le; reflexivity].
Defined.

Lemma sink_holds_all_accepted_records_witness :
  Analytics.NewAnalytics Examples.small = Some Examples.small_pipeline
  /\ Analytics.workers
       (Analytics.run Examples.encode Examples.a_full_run
          (Analytics.Start 0 (Analytics.fresh Examples.small_pipeline))) <> []
  /\ Forall (fun w => Analytics.exited w = true)
       (Analytics.workers
          (Analytics.run Examples.encode Examples.a_full_run
             (Analytics.Start 0 (Analytics.fresh Examples.small_pipeline))))
  /\ concat
       (Analytics.sink
          (Analytics.run Examples.encode Examples.a_full_run
             (Analytics.Start 0 (Analytics.fresh Examples.small_pipeline))))
     ≡ₚ omap Examples.encode
          (Analytics.accepted Examples.encode Examples.a_full_run
             (Analytics.Start 0 (Analytics.fresh Examples.small_pipeline))).
Proof.
  split; [reflexivity|]. split; [discriminate|].
  split; [repeat constructor|].
  apply (sink_holds_all_accepted_records Examples.encode Examples.small
           Examples.small_pipeline 0 Examples.a_full_run);
    [reflexivity | discriminate | repeat constructor].
Defined.

(** The example run in full: the one record sent is the one record in
    the sink. *)
Example a_full_run_delivers :
  Analytics.accepted Examples.encode Examples.a_full_run
    (Analytics.Start 0 (Analytics.fresh Examples.small_pipeline))
  = [Examples.a_record]
  /\ concat
       (Analytics.sink
          (Analytics.run Examples.encode Examples.a_full_run
             (Analytics.Start 0 (Analytics.fresh Examples.small_pipeline))))
     = [[2]].
Proof. split; reflexivity. Qed.

(** ** Waiting for the workers, and draining the closed channel *)

Section Draining.

Import Analytics.

Variable Marshal : AnalyticsRecord -> option (list Z).

Lemma running_middle (a b : list Worker) (x : Worker) :
  running (a ++ x :: b)
  = (running a + (if exited x then 0 else 1) + running b)%nat.
Proof.
  unfold running. rewrite List.filter_app, List.length_app. simpl.
  destruct (exited x); simpl; lia.
Qed.

Lemma running_none (ws : list Worker) :
  running ws = 0%nat -> Forall (fun w => exited w = true) ws.
Proof.
  unfold running. induction ws as [|w ws IH]; [constructor|].
  simpl. destruct (exited w) eqn:He; simpl; [|discriminate].
  intros H. constructor; [exact He | exact (IH H)].
Qed.

(** A worker's step keeps the wait group in line with the number of
    running workers, and starts none. *)
Lemma worker_step_wait (i : nat) (since now : Z) (timeout : bool) (s : System) :
  poolWg (self (worker_step Marshal i since now timeout s))
  - Z.of_nat (running (workers (worker_step Marshal i since now timeout s)))
  = poolWg (self s) - Z.of_nat (running (workers s))
  /\ (running (workers (worker_step Marshal i since now timeout s))
      <= running (workers s))%nat.
Proof.
  unfold worker_step.
  destruct (workers s !! i) as [w|] eqn:Hw; [|split; reflexivity].
  destruct (exited w) eqn:He; [split; reflexivity|].
  destruct (split_at_worker _ _ _ Hw) as (a & b & Hab & Hins).
  assert (H : forall sel c,
    let '(w', out) := worker_iter Marshal (self s) since now sel w in
    let r := set_chan (self s) c in
    let r := if exited w' then set_poolWg r (poolWg r - 1) else r in
    poolWg r - Z.of_nat (running (<[i := w']> (workers s)))
    = poolWg (self s) - Z.of_nat (running (workers s))
    /\ (running (<[i := w']> (workers s)) <= running (workers s))%nat).
  { intros sel c. destruct (worker_iter Marshal (self s) since now sel w) as [w' out].
    rewrite !Hins, Hab, !running_middle, He.
    destruct (exited w'); simpl; split; lia. }
  destruct timeout.
  - specialize (H TimedOut (recordsChan (self s))).
    destruct (worker_iter Marshal (self s) since now TimedOut w) as [w' out].
    exact H.
  - destruct (receive (recordsChan (self s))) as [[sel c]|]; [|split; reflexivity].
    specialize (H sel c).
    destruct (worker_iter Marshal (self s) since now sel w) as [w' out].
    exact H.
Qed.

Lemma waited_step (l : label) (s : System) :
  stopping s -> waited s -> waited (step Marshal l s).
Proof.
  intros (Hp & p & Hs & _ & Hc) [Hwg Hdone]. unfold step. rewrite Hp.
  destruct l as [i|i since now|i since now|record].
  - rewrite Hs. destruct i as [|i]; [|split; assumption].
    cbn [lookup list_lookup].
    destruct p; simpl.
    + rewrite Hs. split; [exact Hwg | discriminate].
    + rewrite Hc. simpl. rewrite Hs. split; [exact Hwg | discriminate].
    + destruct (Z.eqb_spec (poolWg (self s)) 0) as [H0|H0]; simpl; rewrite Hs.
      * split; [exact Hwg | intros _; simpl; lia].
      * split; [exact Hwg | discriminate].
    + rewrite Hs. split; [exact Hwg | intros _; exact (Hdone Hs)].
  - destruct (worker_step_wait i since now false s) as [Hk Hle].
    destruct (worker_step_frame Marshal i since now false s) as (_ & Hst & _).
    split; [lia|]. rewrite Hst. intros H. specialize (Hdone H). lia.
  - destruct (worker_step_wait i since now true s) as [Hk Hle].
    destruct (worker_step_frame Marshal i since now true s) as (_ & Hst & _).
    split; [lia|]. rewrite Hst. intros H. specialize (Hdone H). lia.
  - unfold RecordHit, send.
    destruct (0 <? shouldStop (self s)); [split; assumption|].
    destruct (closed (recordsChan (self s))); [split; assumption|].
    destruct (_ <? _); split; assumption.
Qed.

(** X21: [Stop] waits for every worker.  In every execution after
    [Start], the wait group equals the number of workers that are still
    running, and when the goroutine running [Stop] has finished, every
    worker has returned, the channel is closed and the flag is set. *)
Theorem Stop_waits_for_all_workers
        (options : AnalyticsOptions) (r : Analytics) (now : Z) (ls : list label) :
  NewAnalytics options = Some r ->
  poolWg (self (run Marshal ls (Start now (fresh r))))
  = Z.of_nat (running (workers (run Marshal ls (Start now (fresh r)))))
  /\ (stoppers (run Marshal ls (Start now (fresh r))) = [StopDone] ->
      Forall (fun w => exited w = true)
             (workers (run Marshal ls (Start now (fresh r))))
      /\ closed (recordsChan (self (run Marshal ls (Start now (fresh r))))) = true
      /\ shouldStop (self (run Marshal ls (Start now (fresh r)))) = 1).
Proof.
  intros Hnew.
  pose proof (stopping_Start options r now Hnew) as H0.
  assert (Hw : waited (run Marshal ls (Start now (fresh r)))).
  { induction ls as [|l ls IH] using rev_ind.
    - unfold NewAnalytics in Hnew. destruct (_ =? 0); [discriminate|].
      injection Hnew as <-. split; [|discriminate].
      unfold Start, spawn_workers, running. simpl.
      set (n := Z.to_nat (PoolSize options)).
      assert (Hf : forall k, List.filter (fun w => negb (exited w))
                     (repeat {| recordsBuffer := []; lastSentTS := now;
                                exited := false |} k)
                   = repeat {| recordsBuffer := []; lastSentTS := now;
                               exited := false |} k).
      { induction k as [|k IHk]; [reflexivity|]. simpl. rewrite IHk. reflexivity. }
      rewrite Hf. reflexivity.
    - unfold run in *. rewrite fold_left_app. simpl.
      apply waited_step; [apply (stopping_run Marshal ls _ H0) | exact IH]. }
  destruct Hw as [Hwg Hdone]. split; [exact Hwg|].
  intros Hs. split; [apply running_none, Hdone, Hs|].
  destruct (stopping_run Marshal ls _ H0) as (_ & p & Hs' & Hf & Hc).
  rewrite Hs in Hs'. injection Hs' as <-. split; assumption.
Qed.

(** What one receive does on a channel that holds a record, and on a
    channel that is closed and empty. *)
Lemma recv_takes_a_record (i : nat) (since now : Z) (s : System) (w : Worker)
      (record : AnalyticsRecord) (rest : list AnalyticsRecord) :
  panicked s = false -> workers s !! i = Some w -> exited w = false ->
  buf (recordsChan (self s)) = record :: rest ->
  panicked (step Marshal (WorkerRecv i since now) s) = false
  /\ closed (recordsChan (self (step Marshal (WorkerRecv i since now) s)))
     = closed (recordsChan (self s))
  /\ buf (recordsChan (self (step Marshal (WorkerRecv i since now) s))) = rest
  /\ exists w', workers (step Marshal (WorkerRecv i since now) s) !! i = Some w'
                /\ exited w' = false.
Proof.
  intros Hp Hw He Hb.
  change (step Marshal (WorkerRecv i since now) s)
    with (if panicked s then s else worker_step Marshal i since now false s).
  rewrite Hp. unfold worker_step. rewrite Hw, He. unfold receive. rewrite Hb.
  pose proof (worker_iter_exited Marshal (self s) since now (Received record) w)
    as Hex.
  destruct (worker_iter Marshal (self s) since now (Received record) w) as [w' out].
  simpl in Hex. rewrite Hex. simpl.
  repeat split; try assumption.
  exists w'. split; [|exact Hex].
  apply list_lookup_insert_eq. eapply lookup_lt_Some, Hw.
Qed.

Lemma recv_on_closed_returns (i : nat) (since now : Z) (s : System) (w : Worker) :
  panicked s = false -> workers s !! i = Some w -> exited w = false ->
  buf (recordsChan (self s)) = [] -> closed (recordsChan (self s)) = true ->
  buf (recordsChan (self (step Marshal (WorkerRecv i since now) s))) = []
  /\ sink (step Marshal (WorkerRecv i since now) s) = sink s ++ [recordsBuffer w]
  /\ exists w', workers (step Marshal (WorkerRecv i since now) s) !! i = Some w'
                /\ exited w' = true.
Proof.
  intros Hp Hw He Hb Hc.
  change (step Marshal (WorkerRecv i since now) s)
    with (if panicked s then s else worker_step Marshal i since now false s).
  rewrite Hp. unfold worker_step. rewrite Hw, He. unfold receive. rewrite Hb, Hc.
  simpl. repeat split; try assumption.
  eexists. split;
    [apply list_lookup_insert_eq; eapply lookup_lt_Some, Hw | reflexivity].
Qed.

(** X22: a closed channel is drained.  A running worker that keeps
    receiving from the closed channel takes the records that are left in
    it one by one and returns on the receive after the last: with n
    records left, n + 1 of its receives leave the channel empty and the
    worker returned, its final buffer handed to the sink. *)
Theorem closed_channel_is_drained
        (i : nat) (since now : Z) (s : System) (w : Worker) :
  panicked s = false ->
  closed (recordsChan (self s)) = true ->
  workers s !! i = Some w -> exited w = false ->
  let n := List.length (buf (recordsChan (self s))) in
  buf (recordsChan (self (run Marshal (repeat (WorkerRecv i since now) (S n)) s))) = []
  /\ (exists w' : Worker,
         workers (run Marshal (repeat (WorkerRecv i since now) (S n)) s) !! i = Some w'
         /\ exited w' = true)
  /\ (exists b : list (list Z),
         sink (run Marshal (repeat (WorkerRecv i since now) (S n)) s)
         = sink (run Marshal (repeat (WorkerRecv i since now) n) s) ++ [b]).
Proof.
  intros Hp Hc Hw He n. subst n.
  remember (buf (recordsChan (self s))) as q eqn:Hq.
  revert s w Hp Hc Hw He Hq.
  induction q as [|record rest IH]; intros s w Hp Hc Hw He Hq.
  - destruct (recv_on_closed_returns i since now s w Hp Hw He (eq_sym Hq) Hc)
      as (Hb & Hsink & Hex).
    simpl. split; [exact Hb|]. split; [exact Hex|].
    exists (recordsBuffer w). exact Hsink.
  - destruct (recv_takes_a_record i since now s w record rest Hp Hw He (eq_sym Hq))
      as (Hp1 & Hc1 & Hb1 & w1 & Hw1 & He1).
    rewrite Hc in Hc1.
    specialize (IH _ w1 Hp1 Hc1 Hw1 He1 (eq_sym Hb1)).
    exact IH.
Qed.

End Draining.

Lemma Stop_waits_for_all_workers_witness :
  Analytics.NewAnalytics Examples.small = Some Examples.small_pipeline
  /\ Analytics.poolWg
       (Analytics.self
          (Analytics.run Examples.encode Examples.a_full_run
             (Analytics.Start 0 (Analytics.fresh Examples.small_pipeline))))
     = Z.of_nat
         (Analytics.running
            (Analytics.workers
               (Analytics.run Examples.encode Examples.a_full_run
                  (Analytics.Start 0 (Analytics.fresh Examples.small_pipeline))))).
Proof.
  split; [reflexivity|].
  apply (Stop_waits_for_all_workers Examples.encode Examples.small
           Examples.small_pipeline 0 Examples.a_full_run).
  reflexivity.
Defined.

Lemma closed_channel_is_drained_witness :
  Analytics.panicked Examples.stopped_with_backlog = false
  /\ Analytics.closed (Analytics.recordsChan (Analytics.self Examples.stopped_with_backlog))
     = true
  /\ Analytics.workers Examples.stopped_with_backlog !! 0%nat = Some Examples.half_full
  /\ Analytics.exited Examples.half_full = false
  /\ Analytics.buf
       (Analytics.recordsChan
          (Analytics.self
             (Analytics.run Examples.encode
                (repeat (Analytics.WorkerRecv 0 1 1)
                   (S (List.length
                         (Analytics.buf
                            (Analytics.recordsChan
                               (Analytics.self Examples.stopped_with_backlog))))))
                Examples.stopped_with_backlog)))
     = [].
Proof.
  split; [reflexivity|]. split; [reflexivity|]. split; [reflexivity|].
  split; [reflexivity|].
  apply (closed_channel_is_drained Examples.encode 0 1 1 Examples.stopped_with_backlog
           Examples.half_full);
    reflexivity.
Defined.

(** ** Requested shutdowns, cancellation, and the forced flush *)

Section Emulation.

Import Server.

Lemma step_as_signal (l : label) (st : State) :
  armed st -> step (as_signal l) st = step l st.
Proof.
  intros [[ch Hch] _]. destruct l as [s| | |]; try reflexivity.
  unfold step, as_signal, deliver, RequestShutdown. rewrite Hch.
  destruct (proc st); try reflexivity.
  destruct (try_send SIGINT ch); reflexivity.
Qed.

(** X24: [RequestShutdown] emulates a received signal.  Once
    [SetupSignalHandler] has run, a call of [RequestShutdown] has exactly
    the effect of an interrupt signal delivered at that point: replacing
    every such call of an execution by the delivery of an interrupt gives
    the same state.  Before [SetupSignalHandler] the two differ:
    the call does nothing, while the signal ends the process. *)
Theorem RequestShutdown_emulates_a_signal (ls : list label) :
  run (map as_signal ls) (SetupSignalHandler initial)
  = run ls (SetupSignalHandler initial)
  /\ step Request initial = initial
  /\ proc (step (Deliver SIGINT) initial) = Killed SIGINT.
Proof.
  split; [|split; reflexivity].
  induction ls as [|l ls IH] using rev_ind; [reflexivity|].
  rewrite map_app. simpl map. rewrite !run_snoc, IH.
  apply step_as_signal, armed_run, armed_setup.
Qed.

End Emulation.

Section Cancellation.

Import Load.

Variable store : Type.
Variable store_Reload : store -> option string * store.

Implicit Type st : State store.

(** X23: cancellation ends the reload loop for good.  Whatever wake-ups
    follow the one in which the loop finds its context done, they have no
    effect: the loop has returned, and callbacks that were still pending
    then are never run by it.  Up to that point the loop reloads at most
    once per tick. *)
Theorem reloadLoop_stops_at_cancellation
        (complete : list func) (ws ws' : list wakeup) st :
  reloadLoop store_Reload complete (ws ++ CtxDone :: ws') st
  = reloadLoop store_Reload complete ws st
  /\ reloadLoop store_Reload complete (CtxDone :: ws') st = st
  /\ (reloads (trace (reloadLoop store_Reload complete ws st))
      <= reloads (trace st)
         + List.length (List.filter (fun w => match w with Tick => true | _ => false end)
                                    ws))%nat.
Proof.
  split; [|split; [reflexivity|]].
  - revert st. induction ws as [|[|] ws IH]; intros st; simpl; [reflexivity..|].
    destruct (panicked (reloadLoop_tick store_Reload complete st));
      [reflexivity | apply IH].
  - revert st. induction ws as [|[|] ws IH]; intros st; simpl; [lia | lia |].
    destruct (reloadLoop_tick_count store store_Reload complete st) as (_ & _ & Hn).
    destruct (panicked (reloadLoop_tick store_Reload complete st)).
    + rewrite Hn. destruct (requeue st); lia.
    + specialize (IH (reloadLoop_tick store_Reload complete st)).
      rewrite Hn in IH. destruct (requeue st); lia.
Qed.

End Cancellation.

Section ForcedFlush.

Import Analytics.

Variable Marshal : AnalyticsRecord -> option (list Z).

(** X25: no record stays in a worker's buffer past an iteration that
    runs a second or more after the last flush.  Whatever such an
    iteration received, even a record that could not be encoded, and
    however far the buffer is from its capacity, the buffer is empty after
    it, and what it held, with the record just encoded, has gone to the
    sink in one batch. *)
Theorem forced_flush_after_a_second
        (r : Analytics) (since now : Z) (sel : selected) (w : Worker) :
  sel <> ChanClosed ->
  recordsBufferForcedFlushInterval <= since - lastSentTS w ->
  recordsBuffer (fst (worker_iter Marshal r since now sel w)) = []
  /\ concat (snd (worker_iter Marshal r since now sel w))
     = recordsBuffer w
       ++ omap Marshal match sel with Received record => [record] | _ => [] end.
Proof.
  intros Hsel Hdue.
  pose proof (worker_iter_conserves Marshal r since now sel w) as Hcons.
  pose proof (worker_iter_exited Marshal r since now sel w) as Hex.
  assert (Hb : recordsBuffer (fst (worker_iter Marshal r since now sel w)) = []).
  { unfold worker_iter.
    destruct (Z.leb_spec recordsBufferForcedFlushInterval (since - lastSentTS w));
      [|lia].
    destruct sel as [record| |]; [|congruence|].
    - rewrite orb_true_r, andb_true_r.
      destruct (0 <? List.length _)%nat eqn:E; [reflexivity|].
      simpl. apply Nat.ltb_ge in E.
      destruct (match Marshal record with Some _ => _ | None => _ end);
        [reflexivity | simpl in E; lia].
    - rewrite orb_true_l, andb_true_r.
      destruct (0 <? List.length _)%nat eqn:E; [reflexivity|].
      simpl. apply Nat.ltb_ge in E.
      destruct (recordsBuffer w); [reflexivity | simpl in E; lia]. }
  split; [exact Hb|].
  rewrite Hb in Hcons. rewrite <- Hcons.
  destruct (exited _); reflexivity.
Qed.

End ForcedFlush.

Lemma forced_flush_after_a_second_witness :
  Analytics.Received Examples.a_record <> Analytics.ChanClosed
  /\ Analytics.recordsBufferForcedFlushInterval
     <= 2000000000 - Analytics.lastSentTS Examples.half_full
  /\ Analytics.recordsBuffer
       (fst (Analytics.worker_iter Examples.encode Examples.two_worker_pipeline
               2000000000 2000000001 (Analytics.Received Examples.a_record)
               Examples.half_full))
     = [].
Proof.
  split; [discriminate|]. split; [discriminate|].
  apply (forced_flush_after_a_second Examples.encode Examples.two_worker_pipeline
           2000000000 2000000001 (Analytics.Received Examples.a_record)
           Examples.half_full);
    discriminate.
Defined.
